(** * RSS normalizer: a shallow embedding of [main.py] and its properties

    The program fetches one upstream feed and republishes it as two RSS
    documents (a rich one and a restricted one) behind a time-bounded cache.
    Python [str] values are lists of Unicode code points, [bytes] values are
    lists of bytes, exceptions are an explicit error type, and the functions
    of third-party libraries (bleach, BeautifulSoup, feedparser, lxml, urllib,
    mimetypes, datetime) are the fields of one interface class. *)

From Stdlib.Strings Require Import String Ascii.
From Stdlib.Strings Require Byte.
From Stdlib Require Import List ZArith NArith QArith Bool Lia Lqa.
Import ListNotations.

Set Implicit Arguments.
Close Scope Q_scope.
Open Scope nat_scope.

(** ** Strings *)

(** A Python [str]: a sequence of code points. *)
Definition str := list N.

(** A Python [bytes]. *)
Definition bytes := list Byte.byte.

(** ASCII literals. *)
Fixpoint lit (s : String.string) : str :=
  match s with
  | String.EmptyString => []
  | String.String a s' => Ascii.N_of_ascii a :: lit s'
  end.

Definition str_eqb (a b : str) : bool :=
  if list_eq_dec N.eq_dec a b then true else false.

Lemma str_eqb_eq a b : str_eqb a b = true <-> a = b.
Proof. unfold str_eqb. destruct (list_eq_dec N.eq_dec a b); split; congruence. Qed.

(** Truthiness of a [str] or of a list: not empty. *)
Definition truthy {A} (l : list A) : bool :=
  match l with [] => false | _ => true end.

(** [x or y] on strings. *)
Definition str_or (x y : str) : str := if truthy x then x else y.

(** [d.get(key)] is [None] for an absent key; [d.get(key) or y]. *)
Definition get_or (x : option str) (y : str) : str :=
  match x with Some s => str_or s y | None => y end.

(** [d.get(key, ""%string)]. *)
Definition get_dflt (x : option str) : str :=
  match x with Some s => s | None => [] end.

(** Python's [str.isspace] on one code point, which is also what [\s]
    matches in a [str] pattern. *)
Definition is_space (c : N) : bool :=
  (((9 <=? c) && (c <=? 13)) || ((28 <=? c) && (c <=? 32))
  || (c =? 133) || (c =? 160) || (c =? 5760)
  || ((8192 <=? c) && (c <=? 8202))
  || (c =? 8232) || (c =? 8233) || (c =? 8239) || (c =? 8287) || (c =? 12288))%N.

Definition LF : N := 10%N.
Definition SP : N := 32%N.
Definition ELLIPSIS : N := 8230%N.

(** Longest prefix of characters satisfying [p], and the rest. *)
Fixpoint span (p : N -> bool) (s : str) : str * str :=
  match s with
  | [] => ([], [])
  | c :: s' => if p c then let (a, b) := span p s' in (c :: a, b) else ([], s)
  end.

Definition drop_while (p : N -> bool) (s : str) : str := snd (span p s).

(** [s.strip()]. *)
Definition strip (s : str) : str :=
  rev (drop_while is_space (rev (drop_while is_space s))).

(** [s[:k]] for any integer [k]: a negative [k] counts from the end. *)
Definition slice_to (s : str) (k : Z) : str :=
  if (0 <=? k)%Z then firstn (Z.to_nat k) s
  else firstn (Z.to_nat (Z.of_nat (length s) + k)) s.

(** ** Regular expressions of the program

    [re.sub] scans from the left; where the pattern matches it writes the
    replacement and goes on behind the match, elsewhere it copies one
    character.  The scanners below carry the number of characters still to
    be skipped, which keeps them structural. *)

(** Length of the match of [\s+\S*$] at the head of [s], if any.  The
    pattern has no [re.MULTILINE], so [$] holds at the end and just before
    a newline that ends the string. *)
Definition tail_match (s : str) : option nat :=
  let (w, r) := span is_space s in
  match w with
  | [] => None
  | _ :: _ =>
      let (n, r') := span (fun c => negb (is_space c)) r in
      match r' with
      | [] => Some (length w + length n)%nat
      | [c] => if (c =? LF)%N then Some (length w + length n)%nat else None
      | _ => None
      end
  end.

(** [re.sub(pattern, repl, s)] for a pattern that matches no empty string:
    [m s] is the length of the match at the head of [s], if there is one. *)
Fixpoint re_sub_from (m : str -> option nat) (repl : str) (skip : nat)
    (s : str) : str :=
  match s with
  | [] => []
  | c :: s' =>
      match skip with
      | S k => re_sub_from m repl k s'
      | O =>
          match m s with
          | Some (S k) => repl ++ re_sub_from m repl k s'
          | _ => c :: re_sub_from m repl 0 s'
          end
      end
  end.

Definition re_sub (m : str -> option nat) (repl : str) (s : str) : str :=
  re_sub_from m repl 0 s.

(** [re.sub(r"\s+\S*$", "", s)]. *)
Definition sub_tail (s : str) : str := re_sub tail_match [] s.

(** The match of [\s+] at the head of [s]. *)
Definition ws_match (s : str) : option nat :=
  match fst (span is_space s) with
  | [] => None
  | w => Some (length w)
  end.

(** The pattern of the second substitution is three or more rounds of
    [\s*<br\s*/?>\s*].  The classes that follow each other in a round are
    disjoint, so a scan from the left never has a choice: it is in one of
    five places of a round. *)
Inductive br_place :=
| Between      (* before a round or behind its [>]: white space goes on *)
| SeenLt       (* behind [<] *)
| SeenB        (* behind [<b] *)
| SeenBr       (* behind [<br]: white space goes on *)
| SeenSlash.   (* behind [/] *)

(** What one character does at a place. *)
Inductive br_action :=
| Stop                  (* the round fails *)
| Skip                  (* white space between rounds *)
| Go (q : br_place)     (* one character further in the round *)
| Close.                (* the [>] that ends the round *)

Definition br_step (q : br_place) (c : N) : br_action :=
  match q with
  | Between =>
      if is_space c then Skip else if (c =? 60)%N then Go SeenLt else Stop
  | SeenLt => if (c =? 98)%N then Go SeenB else Stop
  | SeenB => if (c =? 114)%N then Go SeenBr else Stop
  | SeenBr =>
      if is_space c then Go SeenBr
      else if (c =? 47)%N then Go SeenSlash
      else if (c =? 62)%N then Close
      else Stop
  | SeenSlash => if (c =? 62)%N then Close else Stop
  end.

(** From a place of a round: the number of rounds that end in [s], and the
    length of [s] up to the white space behind the last of them.  A round
    that does not end takes nothing. *)
Fixpoint br_scan (q : br_place) (s : str) : nat * nat :=
  match s with
  | [] => (0, 0)
  | c :: s' =>
      match br_step q c with
      | Stop => (0, 0)
      | Skip => let (k, l) := br_scan Between s' in (k, S l)
      | Go q' =>
          let (k, l) := br_scan q' s' in
          match k with O => (0, 0) | _ => (k, S l) end
      | Close => let (k, l) := br_scan Between s' in (S k, S l)
      end
  end.

(** The number of rounds alone. *)
Fixpoint br_count (q : br_place) (s : str) : nat :=
  match s with
  | [] => 0
  | c :: s' =>
      match br_step q c with
      | Stop => 0
      | Skip => br_count Between s'
      | Go q' => br_count q' s'
      | Close => S (br_count Between s')
      end
  end.

(** The match of three or more rounds (the group with the quantifier
    [{3,}]) at the head of [s]. *)
Definition br_match (s : str) : option nat :=
  let (k, l) := br_scan Between s in
  if 3 <=? k then Some l else None.

Definition BR2 : str := lit "<br><br>"%string.

(** The two substitutions of [sanitize_for_tg]. *)
Definition sub_ws (s : str) : str := re_sub ws_match [SP] s.

Definition sub_br (s : str) : str := re_sub br_match BR2 s.

Definition not_space (c : N) : bool := negb (is_space c).

(** Whether [s] starts with white space. *)
Definition space_first (s : str) : bool :=
  match s with
  | c :: _ => is_space c
  | [] => false
  end.

(** Every white space character is a space and no two of them are
    neighbours; [prev] tells whether the character before was one. *)
Fixpoint single_spaced (prev : bool) (s : str) : bool :=
  match s with
  | [] => true
  | c :: s' =>
      if is_space c then (c =? SP)%N && negb prev && single_spaced true s'
      else single_spaced false s'
  end.

(** [chunk_plain_text]. *)
Definition chunk_plain_text (s : str) (maxlen : Z) : str :=
  if (Z.of_nat (length s) <=? maxlen)%Z then s
  else
    let cut := slice_to s (maxlen - 1) in
    let cut := strip (sub_tail cut) in
    cut ++ [ELLIPSIS].

(** ** Exceptions *)

Inductive exn :=
| HTTPException (status : Z)   (* raised by the program itself *)
| RequestError                 (* [requests]: transport failure or non-2xx *)
| ValueError.                  (* lxml refusing a document *)

Inductive result (A : Type) :=
| Ok (a : A)
| Raise (e : exn).
Arguments Ok {A} a.
Arguments Raise {A} e.

Definition bind {A B} (m : result A) (k : A -> result B) : result B :=
  match m with Ok a => k a | Raise e => Raise e end.

Notation "x <- m ;; k" := (bind m (fun x => k))
  (at level 61, m at next level, right associativity).

(** ** Data model *)

(** A [datetime] in UTC. *)
Record datetime := mk_dt {
  dt_year : Z; dt_month : Z; dt_day : Z;
  dt_hour : Z; dt_minute : Z; dt_second : Z }.

Definition is_leap (y : Z) : bool :=
  ((y mod 4 =? 0) && (negb (y mod 100 =? 0) || (y mod 400 =? 0)))%Z.

Definition days_in_month (y m : Z) : Z :=
  if (m =? 2)%Z then (if is_leap y then 29 else 28)%Z
  else if ((m =? 4) || (m =? 6) || (m =? 9) || (m =? 11))%Z then 30%Z
  else 31%Z.

(** The [datetime] built from the first six fields of [val], in UTC: at
    least year, month and day, every field in range; [None] stands for the
    exception. *)
Definition datetime_of (val : list Z) : option datetime :=
  match firstn 6 val with
  | y :: m :: d :: rest =>
      let h := nth 0 rest 0%Z in
      let mi := nth 1 rest 0%Z in
      let sec := nth 2 rest 0%Z in
      if ((1 <=? y) && (y <=? 9999) && (1 <=? m) && (m <=? 12)
          && (1 <=? d) && (d <=? days_in_month y m)
          && (0 <=? h) && (h <=? 23) && (0 <=? mi) && (mi <=? 59)
          && (0 <=? sec) && (sec <=? 59))%Z
      then Some (mk_dt y m d h mi sec) else None
  | _ => None
  end.

(** One block of [entry.content]. *)
Record Content := mk_content {
  c_type : option str;
  c_value : option str }.

Record Enclosure := mk_enclosure {
  enc_href : option str;
  enc_url : option str;
  enc_type : option str }.

(** A feed entry as [feedparser] gives it: a dictionary, every key of which
    may be absent. *)
Record Entry := mk_entry {
  e_id : option str;
  e_guid : option str;
  e_link : option str;
  e_title : option str;
  e_published : option str;
  e_summary : option str;
  e_description : option str;
  e_author : option str;
  e_content : option (list Content);
  e_enclosures : option (list Enclosure);
  e_published_parsed : option (list Z);
  e_updated_parsed : option (list Z);
  e_tags : option (list (option str)) }.   (* the [term] of each tag *)

Record FeedParserDict := mk_fp {
  bozo : bool;
  entries : list Entry }.

(** A parsed HTML document ([BeautifulSoup]). *)
Inductive node :=
| Text (s : str)
| Tag (name : str) (attrs : list (str * str)) (children : list node).

Definition soup := list node.

(** An [lxml] element. *)
Inductive xtext :=
| Plain (s : str)
| CDATA (s : str).

Inductive xml :=
| Elem (tag : str) (attrs : list (str * str)) (text : option xtext)
       (children : list xml).

Definition xml_tag (x : xml) : str := match x with Elem t _ _ _ => t end.
Definition xml_text (x : xml) : option xtext :=
  match x with Elem _ _ t _ => t end.
Definition xml_children (x : xml) : list xml :=
  match x with Elem _ _ _ c => c end.

(** ** Configuration (read from the environment at start) *)

Record Config := mk_config {
  SOURCE_FEED_URL : str;
  SITE_BASE : str;
  FEED_TITLE : str;
  FEED_LINK : str;
  FEED_DESCRIPTION : str;
  TELEGRAM_MAX : Z;
  CACHE_TTL : Z }.

(** ** Third-party functions *)

Class Externals := {
  (** [bleach.clean(html, tags=, attributes=, strip=True)] *)
  bleach_clean : list str -> list (str * list str) -> str -> str;
  (** [BeautifulSoup(html, "html.parser")] and [str(soup)] *)
  bs_parse : str -> soup;
  bs_str : soup -> str;
  (** [urljoin(base, src)]; [None] when it raises *)
  urljoin : str -> str -> option str;
  (** [mimetypes.guess_type(url)[0]] *)
  guess_type : str -> option str;
  (** [dt.astimezone(timezone.utc).strftime("%a, %d %b %Y %H:%M:%S %z")] *)
  strftime_rfc822 : datetime -> str;
  (** the outcome of the [k]-th [requests.get] of a URL, with
      [raise_for_status] *)
  requests_get : str -> nat -> result bytes;
  (** [feedparser.parse(content)] *)
  feedparser_parse : bytes -> FeedParserDict;
  (** whether lxml takes the document (it raises on text that is not
      XML compatible), and the serialisation of its root element *)
  lxml_accepts : xml -> bool;
  lxml_render : xml -> bytes }.

(** ** Document trees *)

(** [tag.get(key)]. *)
Fixpoint attr_get (key : str) (attrs : list (str * str)) : option str :=
  match attrs with
  | [] => None
  | (k, v) :: rest => if str_eqb k key then Some v else attr_get key rest
  end.

(** [tag[key] = f(tag[key])] for a key that is present. *)
Fixpoint attr_update (key : str) (f : str -> str) (attrs : list (str * str))
    : list (str * str) :=
  match attrs with
  | [] => []
  | (k, v) :: rest =>
      if str_eqb k key then (k, f v) :: rest
      else (k, v) :: attr_update key f rest
  end.

(** [soup.find(name)]: the first element of that name, in document order. *)
Fixpoint find_in (nm : str) (n : node) : option node :=
  match n with
  | Text _ => None
  | Tag name _ ch =>
      if str_eqb name nm then Some n
      else (fix go (l : list node) : option node :=
              match l with
              | [] => None
              | x :: l' =>
                  match find_in nm x with
                  | Some r => Some r
                  | None => go l'
                  end
              end) ch
  end.

Fixpoint find (nm : str) (d : soup) : option node :=
  match d with
  | [] => None
  | x :: d' =>
      match find_in nm x with
      | Some r => Some r
      | None => find nm d'
      end
  end.

(** For every element [nm] that has the attribute [key]:
    [tag[key] = f(tag[key])]. *)
Fixpoint rewrite_attr (nm key : str) (f : str -> str) (n : node) : node :=
  match n with
  | Text s => Text s
  | Tag name attrs ch =>
      Tag name
        (if str_eqb name nm then attr_update key f attrs else attrs)
        (map (rewrite_attr nm key f) ch)
  end.

Fixpoint starts_with (pre s : str) : bool :=
  match pre, s with
  | [], _ => true
  | a :: pre', b :: s' => (a =? b)%N && starts_with pre' s'
  | _ :: _, [] => false
  end.

(** Whether the node is an [img] whose [src] starts with [data:]. *)
Definition is_data_img (n : node) : bool :=
  match n with
  | Text _ => false
  | Tag name attrs _ =>
      str_eqb name (lit "img"%string)
      && starts_with (lit "data:"%string) (get_dflt (attr_get (lit "src"%string) attrs))
  end.

(** [img.decompose()] for every such [img]. *)
Fixpoint drop_data_imgs (n : node) : node :=
  match n with
  | Text s => Text s
  | Tag name attrs ch =>
      Tag name attrs
        (filter (fun x => negb (is_data_img x)) (map drop_data_imgs ch))
  end.

Definition drop_data_imgs_soup (d : soup) : soup :=
  filter (fun x => negb (is_data_img x)) (map drop_data_imgs d).

(** The strings of a tree, in document order. *)
Fixpoint strings_of (n : node) : list str :=
  match n with
  | Text s => [s]
  | Tag _ _ ch => flat_map strings_of ch
  end.

Fixpoint join (sep : str) (l : list str) : str :=
  match l with
  | [] => []
  | [x] => x
  | x :: l' => x ++ sep ++ join sep l'
  end.

(** [get_text(sep, strip=True)]: every string stripped, the empty ones
    left out, joined by [sep]. *)
Definition get_text (sep : str) (ns : list node) : str :=
  join sep (filter (@truthy N) (map strip (flat_map strings_of ns))).

(** ** SHA-256 and UTF-8

    [hashlib.sha256(data).hexdigest()] on a list of bytes. *)
Module SHA256.
Local Open Scope N_scope.
Definition W32 : N := 0x100000000.
Definition add (a b : N) : N := (a + b) mod W32.
Definition rotr (n x : N) : N :=
  N.lor (N.shiftr x n) ((N.shiftl x (32 - n)) mod W32).
Definition ch (x y z : N) : N :=
  N.lxor (N.land x y) (N.land (N.lxor x 0xFFFFFFFF) z).
Definition maj (x y z : N) : N :=
  N.lxor (N.lxor (N.land x y) (N.land x z)) (N.land y z).
Definition bsig0 x := N.lxor (N.lxor (rotr 2 x) (rotr 13 x)) (rotr 22 x).
Definition bsig1 x := N.lxor (N.lxor (rotr 6 x) (rotr 11 x)) (rotr 25 x).
Definition ssig0 x := N.lxor (N.lxor (rotr 7 x) (rotr 18 x)) (N.shiftr x 3).
Definition ssig1 x := N.lxor (N.lxor (rotr 17 x) (rotr 19 x)) (N.shiftr x 10).

(** The round constants: the first 32 bits of the fractional parts of the
    cube roots of the first 64 primes. *)
Definition K : list N :=
  [ 1116352408; 1899447441; 3049323471; 3921009573; 961987163; 1508970993;
    2453635748; 2870763221; 3624381080; 310598401; 607225278; 1426881987;
    1925078388; 2162078206; 2614888103; 3248222580; 3835390401; 4022224774;
    264347078; 604807628; 770255983; 1249150122; 1555081692; 1996064986;
    2554220882; 2821834349; 2952996808; 3210313671; 3336571891; 3584528711;
    113926993; 338241895; 666307205; 773529912; 1294757372; 1396182291;
    1695183700; 1986661051; 2177026350; 2456956037; 2730485921; 2820302411;
    3259730800; 3345764771; 3516065817; 3600352804; 4094571909; 275423344;
    430227734; 506948616; 659060556; 883997877; 958139571; 1322822218;
    1537002063; 1747873779; 1955562222; 2024104815; 2227730452; 2361852424;
    2428436474; 2756734187; 3204031479; 3329325298 ].

Record state := mk {
  ha : N; hb : N; hc : N; hd : N; he : N; hf : N; hg : N; hh : N }.

(** The initial state: from the square roots of the first 8 primes. *)
Definition H0 : state :=
  mk 1779033703 3144134277 1013904242 2773480762
     1359893119 2600822924 528734635 1541459225.

(** The message, the bit 1, zeros up to 56 modulo 64, and the length in
    bits on eight bytes. *)
Definition be_bytes (n : nat) (x : N) : list N :=
  map (fun i => (N.shiftr x (8 * N.of_nat i)) mod 256) (rev (seq 0 n)).

Definition pad (msg : list N) : list N :=
  let len := N.of_nat (length msg) in
  let k := (W32 * 64 + 55 - len mod 64) mod 64 in
  msg ++ [0x80] ++ repeat 0 (N.to_nat k) ++ be_bytes 8 (8 * len).

Fixpoint be_words (bs : list N) : list N :=
  match bs with
  | a :: b :: c :: d :: r =>
      (N.shiftl a 24 + N.shiftl b 16 + N.shiftl c 8 + d) :: be_words r
  | _ => []
  end.

(** The message schedule, latest word first. *)
Fixpoint extend (n : nat) (ws : list N) : list N :=
  match n with
  | O => ws
  | S n' =>
      let w := add (add (ssig1 (nth 1 ws 0)) (nth 6 ws 0))
                   (add (ssig0 (nth 14 ws 0)) (nth 15 ws 0)) in
      extend n' (w :: ws)
  end.

Definition round (s : state) (kw : N * N) : state :=
  let (k, w) := kw in
  let t1 := add (add (add (hh s) (bsig1 (he s))) (ch (he s) (hf s) (hg s)))
                (add k w) in
  let t2 := add (bsig0 (ha s)) (maj (ha s) (hb s) (hc s)) in
  mk (add t1 t2) (ha s) (hb s) (hc s) (add (hd s) t1) (he s) (hf s) (hg s).

Definition compress (s : state) (block : list N) : state :=
  let ws := rev (extend 48 (rev (be_words block))) in
  let r := fold_left round (combine K ws) s in
  mk (add (ha s) (ha r)) (add (hb s) (hb r)) (add (hc s) (hc r))
     (add (hd s) (hd r)) (add (he s) (he r)) (add (hf s) (hf r))
     (add (hg s) (hg r)) (add (hh s) (hh r)).

Fixpoint blocks (fuel : nat) (s : state) (bs : list N) : state :=
  match fuel with
  | O => s
  | S f =>
      match bs with
      | [] => s
      | _ => blocks f (compress s (firstn 64 bs)) (skipn 64 bs)
      end
  end.

Definition digest (msg : list N) : state :=
  let p := pad msg in blocks (length p) H0 p.

Definition hex_digit (x : N) : N :=
  nth (N.to_nat (x mod 16))
      [48; 49; 50; 51; 52; 53; 54; 55; 56; 57; 97; 98; 99; 100; 101; 102] 48.

Definition hex8 (w : N) : list N :=
  [hex_digit (N.shiftr w 28); hex_digit (N.shiftr w 24);
   hex_digit (N.shiftr w 20); hex_digit (N.shiftr w 16);
   hex_digit (N.shiftr w 12); hex_digit (N.shiftr w 8);
   hex_digit (N.shiftr w 4); hex_digit w].

Definition hexdigest (msg : list N) : list N :=
  let s := digest msg in
  hex8 (ha s) ++ hex8 (hb s) ++ hex8 (hc s) ++ hex8 (hd s)
  ++ hex8 (he s) ++ hex8 (hf s) ++ hex8 (hg s) ++ hex8 (hh s).
End SHA256.

(** [g.encode("utf-8", "ignore")]: a surrogate, which has no encoding, is
    left out. *)
Definition utf8_char (c : N) : list N :=
  (if c <? 0x80 then [c]
   else if c <? 0x800 then [0xC0 + c / 64; 0x80 + c mod 64]
   else if (0xD800 <=? c) && (c <=? 0xDFFF) then []
   else if c <? 0x10000 then
     [0xE0 + c / 4096; 0x80 + (c / 64) mod 64; 0x80 + c mod 64]
   else if c <? 0x110000 then
     [0xF0 + c / 262144; 0x80 + (c / 4096) mod 64;
      0x80 + (c / 64) mod 64; 0x80 + c mod 64]
   else [])%N.

Definition utf8_encode (s : str) : list N := flat_map utf8_char s.

Definition sha256_hexdigest (g : str) : str := SHA256.hexdigest (utf8_encode g).

(** ** Markup in a string

    The element names a string of HTML mentions.  After [<] (and [/] for an
    end tag) a name starts with an ASCII letter and runs up to white space,
    [/], [>] or the next [<]; it is read in lower case. *)
Definition is_letter (c : N) : bool :=
  (((65 <=? c) && (c <=? 90)) || ((97 <=? c) && (c <=? 122)))%N.

Definition name_char (c : N) : bool :=
  negb (is_space c || (c =? 47) || (c =? 62) || (c =? 60))%N.

Definition lower (c : N) : N :=
  if ((65 <=? c) && (c <=? 90))%N then (c + 32)%N else c.

(** Behind the optional [/] of an end tag. *)
Definition after_slash (s : str) : str :=
  match s with 47%N :: r => r | _ => s end.

(** The name that starts [r]; empty when [r] does not start with a
    letter. *)
Definition name_from (r : str) : str :=
  match r with
  | c :: _ => if is_letter c then map lower (fst (span name_char r)) else []
  | [] => []
  end.

(** The name of the tag whose [<] stands just before [s]; empty when no
    tag starts there. *)
Definition tag_name_at (s : str) : str := name_from (after_slash s).

Fixpoint tag_names (s : str) : list str :=
  match s with
  | [] => []
  | c :: s' =>
      if (c =? 60)%N then
        match tag_name_at s' with
        | [] => tag_names s'
        | (_ :: _) as n => n :: tag_names s'
        end
      else tag_names s'
  end.

(** The elements of a tree, as (name, attribute names). *)
Fixpoint elements_of (n : node) : list (str * list str) :=
  match n with
  | Text _ => []
  | Tag name attrs ch => (name, map fst attrs) :: flat_map elements_of ch
  end.

Definition elements (d : soup) : list (str * list str) :=
  flat_map elements_of d.

(** The elements that HTML lays out as blocks, among those either
    allow-list names. *)
Definition BLOCK_LEVEL : list str :=
  map lit ["p"; "ul"; "ol"; "li"; "blockquote"; "pre"; "h2"; "h3"; "h4";
           "figure"; "figcaption"]%string.

(** ** The program *)

Definition L (s : String.string) : str := lit s.

(** HTML allowed for Telegram. *)
Definition TG_ALLOWED_TAGS : list str :=
  map L ["b"; "strong"; "i"; "em"; "u"; "s"; "del"; "code"; "pre"; "a"; "br"]%string.

Definition TG_ALLOWED_ATTRS : list (str * list str) :=
  [(L "a", [L "href"])].

(** HTML allowed for Dzen. *)
Definition ZEN_ALLOWED_TAGS : list str :=
  map L ["p"; "br"; "ul"; "ol"; "li"; "blockquote";
         "b"; "strong"; "i"; "em"; "u"; "s"; "del"; "code"; "pre";
         "h2"; "h3"; "h4"; "img"; "a"; "figure"; "figcaption"]%string.

Definition ZEN_ALLOWED_ATTRS : list (str * list str) :=
  [(L "a", [L "href"; L "title"]);
   (L "img", [L "src"; L "alt"; L "title"; L "width"; L "height"])].

Definition UNTITLED : str :=   (* "Без названия" *)
  [1041; 1077; 1079; 32; 1085; 1072; 1079; 1074; 1072; 1085; 1080; 1103]%N.

Definition TG_TITLE_SUFFIX : str :=   (* " — Telegram" *)
  [32; 8212; 32]%N ++ L "Telegram".

(** "Лента, подготовленная для автопостинга в Телеграм" *)
Definition TG_DESCRIPTION : str :=
  [1051; 1077; 1085; 1090; 1072; 44; 32; 1087; 1086; 1076; 1075; 1086; 1090;
   1086; 1074; 1083; 1077; 1085; 1085; 1072; 1103; 32; 1076; 1083; 1103; 32;
   1072; 1074; 1090; 1086; 1087; 1086; 1089; 1090; 1080; 1085; 1075; 1072; 32;
   1074; 32; 1058; 1077; 1083; 1077; 1075; 1088; 1072; 1084]%N.

Definition NS_CONTENT : str := L "http://purl.org/rss/1.0/modules/content/".
Definition NS_ATOM : str := L "http://www.w3.org/2005/Atom".
Definition NS_YANDEX : str := L "http://news.yandex.ru".
Definition NS_MEDIA : str := L "http://search.yahoo.com/mrss/".

(** A tag name in lxml's [{namespace}local] form. *)
Definition qname (ns loc : str) : str := L "{" ++ ns ++ L "}" ++ loc.

(** [etree.SubElement(parent, tag).text = text], as the child it adds. *)
Definition text_elem (tag text : str) : xml := Elem tag [] (Some (Plain text)) [].

(** [s.rstrip("/")]. *)
Definition rstrip_slash (s : str) : str :=
  rev (drop_while (fun c => (c =? 47)%N) (rev s)).

Definition XML_DECLARATION : bytes :=
  list_byte_of_string "<?xml version='1.0' encoding='utf-8'?>".

(** ** The cache

    [_cache], the dictionary every request shares, and the number of GET
    requests sent upstream so far.  Times are the readings of [time.time()],
    taken as rationals. *)
Record Cache := mk_cache {
  t : Q;
  zen : bytes;
  tg : bytes }.

Record State := mk_state {
  cache : Cache;
  fetches : nat }.

Definition initial_cache : Cache := mk_cache 0 [] [].

Definition Qlt_bool (a b : Q) : bool := negb (Qle_bool b a).

Section Program.
Context {X : Externals}.
Variable cfg : Config.

Definition http_get (url : str) (k : nat) : result bytes := requests_get url k.

Definition absolutize_url (src base : str) : str :=
  match urljoin base src with
  | Some u => u
  | None => src
  end.

(** The value of the first block of [entry.content] whose type starts
    with [text/html]. *)
Fixpoint first_html_content (cs : list Content) : str :=
  match cs with
  | [] => []
  | c :: cs' =>
      if starts_with (L "text/html") (get_dflt (c_type c))
      then get_or (c_value c) []
      else first_html_content cs'
  end.

Definition entry_base (entry : Entry) : str :=
  get_or (e_link entry) (SITE_BASE cfg).

Definition extract_main_html (entry : Entry) : str * option str :=
  let base := entry_base entry in
  let html :=
    match e_content entry with
    | Some cs => first_html_content cs
    | None => []
    end in
  let html :=
    if truthy html then html
    else str_or (get_dflt (e_summary entry))
                (str_or (get_dflt (e_description entry)) []) in
  let soup := bs_parse html in
  let first_img :=
    match find (L "img") soup with
    | Some (Tag _ attrs _) =>
        match attr_get (L "src") attrs with
        | Some src => if truthy src then Some (absolutize_url src base) else None
        | None => None
        end
    | _ => None
    end in
  let soup := map (rewrite_attr (L "a") (L "href")
                     (fun v => absolutize_url v base)) soup in
  let soup := map (rewrite_attr (L "img") (L "src")
                     (fun v => absolutize_url v base)) soup in
  (bs_str soup, first_img).

(** The source spells the replacement callback of the first substitution
    [&nbsp_replacer]; it returns one space for every match. *)
Definition sanitize_for_tg (html : str) : str :=
  let cleaned := bleach_clean TG_ALLOWED_TAGS TG_ALLOWED_ATTRS html in
  let cleaned := sub_ws cleaned in
  let cleaned := sub_br cleaned in
  cleaned.

(** The tree that [sanitize_for_zen] serialises. *)
Definition sanitize_for_zen_soup (html : str) : soup :=
  let cleaned := bleach_clean ZEN_ALLOWED_TAGS ZEN_ALLOWED_ATTRS html in
  drop_data_imgs_soup (bs_parse cleaned).

Definition sanitize_for_zen (html : str) : str :=
  bs_str (sanitize_for_zen_soup html).

Definition IMAGE_JPEG : str := L "image/jpeg".

Definition mime_of (declared : option str) (url : str) : str :=
  get_or declared (get_or (guess_type url) IMAGE_JPEG).

Definition pick_enclosure (entry : Entry) (html_first_img : option str)
    : option (str * str) :=
  let from_html :=
    match html_first_img with
    | Some img =>
        if truthy img then Some (img, mime_of None img) else None
    | None => None
    end in
  match e_enclosures entry with
  | Some (enc :: _) =>
      let href := get_or (enc_href enc) (get_dflt (enc_url enc)) in
      if truthy href then
        let href := absolutize_url href (entry_base entry) in
        Some (href, mime_of (enc_type enc) href)
      else from_html
  | _ => from_html
  end.

Definition dt_to_rfc822 (dt : datetime) : str := strftime_rfc822 dt.

(** [clock] is what [datetime.now(timezone.utc)] returns. *)
Definition safe_pubdate (clock : datetime) (entry : Entry) : datetime :=
  let try (val : option (list Z)) (otherwise : datetime) : datetime :=
    match val with
    | Some v =>
        if truthy v then
          match datetime_of v with
          | Some dt => dt
          | None => otherwise
          end
        else otherwise
    | None => otherwise
    end in
  try (e_published_parsed entry) (try (e_updated_parsed entry) clock).

(** The string that [guid_for] hashes. *)
Definition guid_source (entry : Entry) : str :=
  get_or (e_id entry)
    (get_or (e_guid entry)
       (get_or (e_link entry)
          (get_dflt (e_title entry) ++ get_dflt (e_published entry)))).

Definition guid_for (entry : Entry) : str :=
  sha256_hexdigest (guid_source entry).

(** The four children every item of either feed starts with. *)
Definition item_head (clock : datetime) (e : Entry) : list xml :=
  let title := get_or (e_title e) UNTITLED in
  let link := get_or (e_link e) (FEED_LINK cfg) in
  [ text_elem (L "title") title;
    text_elem (L "link") link;
    text_elem (L "guid") (guid_for e);
    text_elem (L "pubDate") (dt_to_rfc822 (safe_pubdate clock e)) ].

Definition zen_media (enc : option (str * str)) : list xml :=
  match enc with
  | Some (url, mime) =>
      [ Elem (L "enclosure") [(L "url", url); (L "type", mime)] None [];
        Elem (qname NS_MEDIA (L "content"))
             [(L "url", url); (L "type", mime)] None [] ]
  | None => []
  end.

Definition zen_author (e : Entry) : list xml :=
  match e_author e with
  | Some a => if truthy a then [text_elem (L "author") a] else []
  | None => []
  end.

Definition zen_categories (e : Entry) : list xml :=
  flat_map (fun term =>
              match term with
              | Some t => if truthy t then [text_elem (L "category") t] else []
              | None => []
              end)
           (firstn 10 (match e_tags e with Some ts => ts | None => [] end)).

(** The short description: the text of the first paragraph. *)
Definition zen_description (full_html : str) : list xml :=
  match find (L "p") (bs_parse full_html) with
  | Some p =>
      [text_elem (L "description") (firstn 500 (get_text [SP] [p]))]
  | None => []
  end.

Definition zen_item (clock : datetime) (e : Entry) : xml :=
  let (raw_html, first_img) := extract_main_html e in
  let full_html := sanitize_for_zen raw_html in
  Elem (L "item") [] None
    (item_head clock e
     ++ [ Elem (qname NS_CONTENT (L "encoded")) [] (Some (CDATA full_html)) [];
          Elem (qname NS_YANDEX (L "full-text")) [] (Some (CDATA full_html)) [] ]
     ++ zen_media (pick_enclosure e first_img)
     ++ zen_author e
     ++ zen_categories e
     ++ zen_description full_html).

Definition zen_tree (clock : datetime) (fp : FeedParserDict) : xml :=
  Elem (L "rss")
    [(L "xmlns", L "http://backend.userland.com/rss2");
     (L "xmlns:content", NS_CONTENT); (L "xmlns:atom", NS_ATOM);
     (L "xmlns:yandex", NS_YANDEX); (L "xmlns:media", NS_MEDIA);
     (L "version", L "2.0")] None
    [Elem (L "channel") [] None
       ([ text_elem (L "title") (FEED_TITLE cfg);
          text_elem (L "link") (FEED_LINK cfg);
          text_elem (L "description") (FEED_DESCRIPTION cfg);
          Elem (qname NS_ATOM (L "link"))
               [(L "href", rstrip_slash (FEED_LINK cfg) ++ L "/zen.xml");
                (L "rel", L "self");
                (L "type", L "application/rss+xml")] None [] ]
        ++ map (zen_item clock) (entries fp))].

(** [etree.tostring(rss, encoding="utf-8", xml_declaration=True,
    pretty_print=True)]; lxml's refusal of a text is raised here. *)
Definition etree_tostring (root : xml) : result bytes :=
  if lxml_accepts root then Ok (XML_DECLARATION ++ lxml_render root)
  else Raise ValueError.

Definition build_zen_xml (clock : datetime) (fp : FeedParserDict)
    : result bytes :=
  etree_tostring (zen_tree clock fp).

Definition tg_item (clock : datetime) (e : Entry) : xml :=
  let (raw_html, _) := extract_main_html e in
  let safe_html := sanitize_for_tg raw_html in
  let plain := get_text [LF] (bs_parse safe_html) in
  let desc_text := chunk_plain_text plain (TELEGRAM_MAX cfg) in
  Elem (L "item") [] None
    (item_head clock e ++ [text_elem (L "description") desc_text]).

Definition tg_tree (clock : datetime) (fp : FeedParserDict) : xml :=
  Elem (L "rss") [(L "version", L "2.0")] None
    [Elem (L "channel") [] None
       ([ text_elem (L "title") (FEED_TITLE cfg ++ TG_TITLE_SUFFIX);
          text_elem (L "link") (FEED_LINK cfg);
          text_elem (L "description") TG_DESCRIPTION ]
        ++ map (tg_item clock) (entries fp))].

Definition build_tg_xml (clock : datetime) (fp : FeedParserDict)
    : result bytes :=
  etree_tostring (tg_tree clock fp).

(** [k] is the number of requests sent before this one. *)
Definition fetch_source_feed (k : nat) : result FeedParserDict :=
  r <- http_get (SOURCE_FEED_URL cfg) k ;;
  let fp := feedparser_parse r in
  if bozo fp && negb (truthy (entries fp))
  then Raise (HTTPException 502)
  else Ok fp.

(** Whether the guard of [maybe_refresh_cache] returns at once. *)
Definition cache_fresh (force : bool) (now : Q) (c : Cache) : bool :=
  negb force
  && Qlt_bool (now - t c) (inject_Z (CACHE_TTL cfg))
  && truthy (zen c) && truthy (tg c).

(** [now] is the reading of [time.time()], [clock] the one of
    [datetime.now].  An exception leaves the dictionary as the
    assignments before it made it. *)
Definition maybe_refresh_cache (force : bool) (now : Q) (clock : datetime)
    (st : State) : State * result unit :=
  let c := cache st in
  if cache_fresh force now c then (st, Ok tt)
  else
    let sent := S (fetches st) in
    match fetch_source_feed (fetches st) with
    | Raise e => (mk_state c sent, Raise e)
    | Ok fp =>
        match build_zen_xml clock fp with
        | Raise e => (mk_state c sent, Raise e)
        | Ok z =>
            let c1 := mk_cache (t c) z (tg c) in
            match build_tg_xml clock fp with
            | Raise e => (mk_state c1 sent, Raise e)
            | Ok g =>
                let c2 := mk_cache (t c1) (zen c1) g in
                let c3 := mk_cache now (zen c2) (tg c2) in
                (mk_state c3 sent, Ok tt)
            end
        end
    end.

(** The two feed endpoints: any exception becomes a status 500. *)
Definition zen_feed (now : Q) (clock : datetime) (st : State)
    : State * result bytes :=
  match maybe_refresh_cache false now clock st with
  | (st', Ok _) => (st', Ok (zen (cache st')))
  | (st', Raise _) => (st', Raise (HTTPException 500))
  end.

Definition telegram_feed (now : Q) (clock : datetime) (st : State)
    : State * result bytes :=
  match maybe_refresh_cache false now clock st with
  | (st', Ok _) => (st', Ok (tg (cache st')))
  | (st', Raise _) => (st', Raise (HTTPException 500))
  end.
End Program.

(** ** A reference environment

    Small stand-ins for the third-party functions, over HTML without
    attributes: a tokenizer, a sanitizer that keeps the allowed tags and
    escapes stray angle brackets, a tree builder and a serialiser.  The
    upstream, the feed parser and lxml's verdict are parameters. *)
Module Ref.

Inductive token :=
| TChar (c : N)
| TOpen (n : str)
| TClose (n : str).

(** Index of the first [>]. *)
Fixpoint find_gt (s : str) : option nat :=
  match s with
  | [] => None
  | c :: s' => if (c =? 62)%N then Some 0 else option_map S (find_gt s')
  end.

(** The tag whose [<] stands just before [s]: whether it is an end tag,
    its name, and how many characters of [s] it takes. *)
Definition tag_at (s : str) : option (bool * str * nat) :=
  match tag_name_at s, find_gt s with
  | (_ :: _) as n, Some i => Some (starts_with [47%N] s, n, S i)
  | _, _ => None
  end.

Fixpoint tokenize_from (skip : nat) (s : str) : list token :=
  match s with
  | [] => []
  | c :: s' =>
      match skip with
      | S k => tokenize_from k s'
      | O =>
          if (c =? 60)%N then
            match tag_at s' with
            | Some (closing, n, len) =>
                (if closing then TClose n else TOpen n) :: tokenize_from len s'
            | None => TChar c :: tokenize_from 0 s'
            end
          else TChar c :: tokenize_from 0 s'
      end
  end.

Definition tokenize (s : str) : list token := tokenize_from 0 s.

Definition mem (n : str) (l : list str) : bool := existsb (str_eqb n) l.

Definition escape_char (c : N) : str :=
  if (c =? 60)%N then lit "&lt;"%string
  else if (c =? 62)%N then lit "&gt;"%string
  else [c].

Definition clean_token (tags : list str) (tk : token) : str :=
  match tk with
  | TChar c => escape_char c
  | TOpen n => if mem n tags then [60%N] ++ n ++ [62%N] else []
  | TClose n => if mem n tags then [60%N; 47%N] ++ n ++ [62%N] else []
  end.

Definition clean (tags : list str) (_ : list (str * list str))
    (html : str) : str :=
  flat_map (clean_token tags) (tokenize html).

Definition VOID : list str := map lit ["br"; "img"; "hr"]%string.

(** The nodes up to the end tag that closes the current element, and the
    tokens behind it. *)
Fixpoint build (fuel : nat) (ts : list token) : list node * list token :=
  match fuel with
  | O => ([], [])
  | S f =>
      match ts with
      | [] => ([], [])
      | TChar c :: r =>
          let (ns, r') := build f r in
          match ns with
          | Text s :: ns' => (Text (c :: s) :: ns', r')
          | _ => (Text [c] :: ns, r')
          end
      | TClose _ :: r => ([], r)
      | TOpen n :: r =>
          if mem n VOID then
            let (ns, r') := build f r in (Tag n [] [] :: ns, r')
          else
            let (ch, r1) := build f r in
            let (ns, r2) := build f r1 in
            (Tag n [] ch :: ns, r2)
      end
  end.

(** The whole document: an end tag that closes nothing is passed over. *)
Fixpoint build_all (fuel : nat) (ts : list token) : soup :=
  match fuel with
  | O => []
  | S f =>
      let (ns, r) := build (length ts) ts in
      match r with
      | [] => ns
      | _ => ns ++ build_all f r
      end
  end.

Definition parse_html (s : str) : soup :=
  let ts := tokenize s in build_all (S (length ts)) ts.

Fixpoint str_node (n : node) : str :=
  match n with
  | Text s => s
  | Tag name _ ch =>
      [60%N] ++ name ++ [62%N]
      ++ (if mem name VOID then []
          else flat_map str_node ch ++ [60%N; 47%N] ++ name ++ [62%N])
  end.

Definition to_str (d : soup) : str := flat_map str_node d.

(** The environment: [urljoin] keeps an absolute URL and puts the base in
    front of any other, no MIME type is guessed, the date is a fixed string. *)
Definition env (upstream : nat -> result bytes)
    (parse : bytes -> FeedParserDict) (accepts : xml -> bool) : Externals :=
  {| bleach_clean := clean;
     bs_parse := parse_html;
     bs_str := to_str;
     urljoin := fun base src =>
                  Some (if starts_with (lit "http"%string) src then src
                        else base ++ src);
     guess_type := fun _ => None;
     strftime_rfc822 := fun _ => lit "Thu, 01 Jan 1970 00:00:00 +0000"%string;
     requests_get := fun _ k => upstream k;
     feedparser_parse := parse;
     lxml_accepts := accepts;
     lxml_render := fun _ => [] |}.

End Ref.

(** ** The identity of an entry, as the specification words it

    A value is present when the key is there and the string is not empty;
    the identity is the first present value among the native id, the guid
    field and the link, and otherwise the title followed by the published
    date string. *)
Definition present (x : option str) : option str :=
  match x with
  | Some (c :: s) => Some (c :: s)
  | _ => None
  end.

Definition resolved_identity (e : Entry) : str :=
  match present (e_id e), present (e_guid e), present (e_link e) with
  | Some v, _, _ => v
  | None, Some v, _ => v
  | None, None, Some v => v
  | None, None, None => get_dflt (e_title e) ++ get_dflt (e_published e)
  end.

Definition is_hex (c : N) : bool :=
  (((48 <=? c) && (c <=? 57)) || ((97 <=? c) && (c <=? 102)))%N.

(** An entry that has a summary and nothing else. *)
Definition bare_entry (summary : str) : Entry :=
  mk_entry None None None None None (Some summary) None None None None None
    None None.

(** A configuration whose feed link is not its site base. *)
Definition split_cfg : Config :=
  mk_config (L "https://example.org/feed.xml") (L "https://site.example/")
    (L "Feed") (L "https://feed.example/") (L "A feed") 4096 600.

(** ** Sample inputs *)

Definition EMPTY_RSS : bytes :=
  list_byte_of_string "<rss version='2.0'><channel></channel></rss>".

Definition NOT_XML : bytes := list_byte_of_string "not a feed".

(** A feed parser for the samples: the well-formed feed without items
    parses cleanly to no entry, anything else fails to parse. *)
Definition sample_parse (b : bytes) : FeedParserDict :=
  if list_eq_dec Byte.byte_eq_dec b EMPTY_RSS then mk_fp false []
  else mk_fp true [].

Definition sample_cfg : Config :=
  mk_config (L "https://example.org/feed.xml") (L "https://example.org/")
    (L "Feed") (L "https://example.org/") (L "A feed") 4096 600.

Definition sample_clock : datetime := mk_dt 2024 1 1 0 0 0.

Definition old_cache : Cache :=
  mk_cache 0 (list_byte_of_string "old zen") (list_byte_of_string "old tg").

(** The upstream serves the empty feed. *)
Definition env_empty_feed : Externals :=
  Ref.env (fun _ => Ok EMPTY_RSS) sample_parse (fun _ => true).

(** The upstream serves bytes that are no feed. *)
Definition env_broken_feed : Externals :=
  Ref.env (fun _ => Ok NOT_XML) sample_parse (fun _ => true).

(** The state after the first request of a process that serves the empty
    feed, at time 1000. *)
Definition st_first : State :=
  fst (@maybe_refresh_cache env_empty_feed sample_cfg false 1000 sample_clock
         (mk_state initial_cache 0)).

(** ** The rest of the program *)

(** What [health] returns; it reads the cache and refreshes nothing. *)
Record Health := mk_health {
  h_ok : bool;
  h_source : str;
  h_updated : Q }.

Definition health (cfg : Config) (st : State) : Health :=
  mk_health true (SOURCE_FEED_URL cfg) (t (cache st)).

(** The steps of [extract_main_html], one by one: the markup it chooses,
    the tree after the links are made absolute, and the first image. *)
Definition main_html (entry : Entry) : str :=
  let html :=
    match e_content entry with
    | Some cs => first_html_content cs
    | None => []
    end in
  if truthy html then html
  else str_or (get_dflt (e_summary entry))
              (str_or (get_dflt (e_description entry)) []).

Section Extraction.
Context {X : Externals}.
Variable cfg : Config.

Definition absolutized_soup (entry : Entry) : soup :=
  let base := entry_base cfg entry in
  map (rewrite_attr (L "img") (L "src") (fun v => absolutize_url v base))
    (map (rewrite_attr (L "a") (L "href") (fun v => absolutize_url v base))
       (bs_parse (main_html entry))).

Definition first_image (entry : Entry) : option str :=
  match find (L "img") (bs_parse (main_html entry)) with
  | Some (Tag _ attrs _) =>
      match attr_get (L "src") attrs with
      | Some src =>
          if truthy src then Some (absolutize_url src (entry_base cfg entry))
          else None
      | None => None
      end
  | _ => None
  end.
End Extraction.

(** A request to one of the two feed endpoints. *)
Inductive request :=
| GetZen
| GetTg.


Section Serving.
Context {X : Externals}.
Variable cfg : Config.

Definition serve (r : request) (now : Q) (clock : datetime) (st : State)
    : State * result bytes :=
  match r with
  | GetZen => zen_feed cfg now clock st
  | GetTg => telegram_feed cfg now clock st
  end.

(** The requests that a process answers one after the other, each with
    the readings of [time.time()] and [datetime.now] it meets; and for each
    the state it leaves and its answer. *)
Fixpoint run (reqs : list (request * Q * datetime)) (st : State)
    : list (request * State * result bytes) :=
  match reqs with
  | [] => []
  | (r, now, clock) :: rest =>
      let out := serve r now clock st in
      (r, fst out, snd out) :: run rest (fst out)
  end.


End Serving.


(** Whether the fields of a [datetime] are in range. *)
Definition valid_datetime (d : datetime) : bool :=
  ((1 <=? dt_year d) && (dt_year d <=? 9999)
   && (1 <=? dt_month d) && (dt_month d <=? 12)
   && (1 <=? dt_day d) && (dt_day d <=? days_in_month (dt_year d) (dt_month d))
   && (0 <=? dt_hour d) && (dt_hour d <=? 23)
   && (0 <=? dt_minute d) && (dt_minute d <=? 59)
   && (0 <=? dt_second d) && (dt_second d <=? 59))%Z.

(** The date that an entry carries: the first of [published_parsed] and
    [updated_parsed] from which [datetime] builds a date. *)
Definition usable_date (val : option (list Z)) : option datetime :=
  match val with
  | Some v => datetime_of v
  | None => None
  end.

Definition parsed_date (e : Entry) : option datetime :=
  match usable_date (e_published_parsed e) with
  | Some d => Some d
  | None => usable_date (e_updated_parsed e)
  end.

(** Whether an [img] with a [data:] source is anywhere in the tree. *)
Fixpoint has_data_img (n : node) : bool :=
  is_data_img n
  || match n with
     | Text _ => false
     | Tag _ _ ch => existsb has_data_img ch
     end.

(** The texts of the children of an element that carry the tag [tag]. *)
Definition texts_of (tag : str) (item : xml) : list xtext :=
  flat_map (fun x => if str_eqb (xml_tag x) tag
                     then match xml_text x with Some tx => [tx] | None => [] end
                     else [])
           (xml_children item).

Definition xtext_str (tx : xtext) : str :=
  match tx with Plain s | CDATA s => s end.

(** The [item] elements of a document, in order. *)
Definition items_of (root : xml) : list xml :=
  filter (fun x => str_eqb (xml_tag x) (L "item"))
         (flat_map xml_children (xml_children root)).

(** The strings that lxml is given for a document: attribute values and
    texts, at any depth. *)
Fixpoint xml_strings (x : xml) : list str :=
  match x with
  | Elem _ attrs text ch =>
      map snd attrs
      ++ match text with Some tx => [xtext_str tx] | None => [] end
      ++ flat_map xml_strings ch
  end.

(** A control character that XML does not allow: below the space, and
    neither tab, newline nor carriage return.  lxml raises [ValueError]
    on a string that holds one. *)
Definition control_char (c : N) : bool :=
  ((c <? 32) && negb ((c =? 9) || (c =? 10) || (c =? 13)))%N.

Definition no_control_char (root : xml) : bool :=
  negb (existsb (existsb control_char) (xml_strings root)).

(** How many characters of a round lie behind a place, at least. *)
Definition br_behind (q : br_place) : nat :=
  match q with
  | Between => 0
  | SeenLt => 1
  | SeenB => 2
  | SeenBr | SeenSlash => 3
  end.

(** An entry that has a link and enclosures and nothing else. *)
Definition entry_with_enclosures (link : str) (encs : list Enclosure) : Entry :=
  mk_entry None None (Some link) None None None None None None (Some encs)
    None None None.

(** An entry that has a summary and content blocks and nothing else. *)
Definition entry_with_content (summary : str) (cs : list Content) : Entry :=
  mk_entry None None None None None (Some summary) None None (Some cs) None
    None None None.

(** An entry that has the two parsed dates and nothing else. *)
Definition entry_with_dates (published updated : list Z) : Entry :=
  mk_entry None None None None None None None None None None
    (Some published) (Some updated) None.

(** An entry that has an id and nothing else. *)
Definition entry_with_id (id : str) : Entry :=
  mk_entry (Some id) None None None None None None None None None None None
    None.

(** An entry that has a title and nothing else. *)
Definition entry_with_title (title : str) : Entry :=
  mk_entry None None None (Some title) None None None None None None None None
    None.

(** A title with the control character U+0001 in it. *)
Definition CONTROL_TITLE : str := L "a" ++ [1%N] ++ L "b".

(** lxml refuses a document that holds a control character. *)
Definition env_control_char : Externals :=
  Ref.env (fun _ => Ok NOT_XML)
    (fun _ => mk_fp true [entry_with_title CONTROL_TITLE]) no_control_char.


(** ** Runs, as the two patterns word them *)

Definition all_space (w : str) : Prop := Forall (fun c => is_space c = true) w.

(** A line-break tag: [<br], white space, an optional slash, [>]. *)
Definition br_tag (w : str) (slash : bool) : str :=
  L "<br" ++ w ++ (if slash then L "/" else []) ++ L ">".

Inductive is_br_tag : str -> Prop :=
| is_br_tag_intro w slash : all_space w -> is_br_tag (br_tag w slash).

(** [br_rounds k s]: [s] is [k] line-break tags, with any white space
    before, between and behind them. *)
Inductive br_rounds : nat -> str -> Prop :=
| br_rounds_O : br_rounds 0 []
| br_rounds_S k w1 t w2 s :
    all_space w1 -> is_br_tag t -> all_space w2 -> br_rounds k s ->
    br_rounds (S k) (w1 ++ t ++ w2 ++ s).

(** What stands behind a run can be added to it: white space or one more
    tag. *)
Definition br_goes_on (s : str) : Prop :=
  space_first s = true \/ exists t r, is_br_tag t /\ s = t ++ r.

(** [ws_collapsed s out]: [out] is [s] with every run of white space, taken
    as far as it goes, turned into one space, and every other character
    kept. *)
Inductive ws_collapsed : str -> str -> Prop :=
| ws_collapsed_nil : ws_collapsed [] []
| ws_collapsed_run run post out :
    run <> [] -> all_space run -> space_first post = false ->
    ws_collapsed post out ->
    ws_collapsed (run ++ post) (SP :: out)
| ws_collapsed_copy c s out :
    is_space c = false ->
    ws_collapsed s out ->
    ws_collapsed (c :: s) (c :: out).

(** [br_collapsed s out]: [out] is [s] with every run of three or more
    line-break tags, taken from the left, with the white space around its
    tags and as far as it goes, turned into [<br><br>], and every other
    character kept. *)
Inductive br_collapsed : str -> str -> Prop :=
| br_collapsed_nil : br_collapsed [] []
| br_collapsed_run k run post out :
    3 <= k -> br_rounds k run -> ~ br_goes_on post ->
    br_collapsed post out ->
    br_collapsed (run ++ post) (BR2 ++ out)
| br_collapsed_copy c s out :
    (forall k run post, 3 <= k -> br_rounds k run -> c :: s <> run ++ post) ->
    br_collapsed s out ->
    br_collapsed (c :: s) (c :: out).


(** [s] does not end in white space. *)
Definition ends_no_space (s : str) : Prop :=
  forall b c, s = b ++ [c] -> is_space c = false.

Definition no_space (s : str) : Prop := Forall (fun c => is_space c = false) s.

(** * Properties *)

Unset Implicit Arguments.

(** ** The cache *)

Section CacheProperties.
Context {X : Externals}.
Variable cfg : Config.

Lemma etree_tostring_truthy root b :
  etree_tostring root = Ok b -> truthy b = true.
Proof.
  unfold etree_tostring. destruct (lxml_accepts root); [|discriminate].
  intros H. injection H as <-. reflexivity.
Qed.

(** Every way a call of [maybe_refresh_cache] can go. *)
Lemma refresh_cases force now clock st :
  let c := cache st in
  let out := maybe_refresh_cache cfg force now clock st in
  (cache_fresh cfg force now c = true /\ out = (st, Ok tt))
  \/ (cache_fresh cfg force now c = false
      /\ fetches (fst out) = S (fetches st)
      /\ ((exists fp z g,
             fetch_source_feed cfg (fetches st) = Ok fp
             /\ build_zen_xml cfg clock fp = Ok z
             /\ build_tg_xml cfg clock fp = Ok g
             /\ snd out = Ok tt
             /\ cache (fst out) = mk_cache now z g)
          \/ (exists e,
                fetch_source_feed cfg (fetches st) = Raise e
                /\ snd out = Raise e
                /\ cache (fst out) = c)
          \/ (exists fp e,
                fetch_source_feed cfg (fetches st) = Ok fp
                /\ build_zen_xml cfg clock fp = Raise e
                /\ snd out = Raise e
                /\ cache (fst out) = c)
          \/ (exists fp z e,
                fetch_source_feed cfg (fetches st) = Ok fp
                /\ build_zen_xml cfg clock fp = Ok z
                /\ build_tg_xml cfg clock fp = Raise e
                /\ snd out = Raise e
                /\ cache (fst out) = mk_cache (t c) z (tg c)))).
Proof.
  cbv zeta. unfold maybe_refresh_cache.
  destruct (cache_fresh cfg force now (cache st)) eqn:Hf.
  - left. split; reflexivity.
  - right. split; [reflexivity|].
    destruct (fetch_source_feed cfg (fetches st)) as [fp|e] eqn:Hfetch.
    + destruct (build_zen_xml cfg clock fp) as [z|e] eqn:Hz.
      * destruct (build_tg_xml cfg clock fp) as [g|e] eqn:Hg.
        -- split; [reflexivity|]. left. exists fp, z, g. repeat split; auto.
        -- split; [reflexivity|]. right; right; right.
           exists fp, z, e. repeat split; auto.
      * split; [reflexivity|]. right; right; left.
        exists fp, e. repeat split; auto.
    + split; [reflexivity|]. right; left. exists e. repeat split; auto.
Qed.

(** What [fetch_source_feed] does with the parsed feed. *)
Lemma fetch_source_feed_cases k :
  match requests_get (SOURCE_FEED_URL cfg) k with
  | Raise e => fetch_source_feed cfg k = Raise e
  | Ok r =>
      let fp := feedparser_parse r in
      if bozo fp && negb (truthy (entries fp))
      then fetch_source_feed cfg k = Raise (HTTPException 502)
      else fetch_source_feed cfg k = Ok fp
  end.
Proof.
  unfold fetch_source_feed, http_get.
  destruct (requests_get (SOURCE_FEED_URL cfg) k) as [r|e]; simpl; auto.
  destruct (bozo (feedparser_parse r) && negb (truthy (entries (feedparser_parse r))));
    reflexivity.
Qed.

(** C2, as the code has it: when the cache is not fresh and the bytes
    fetched fail to parse (the parser sets [bozo]) with no entry
    recovered, [maybe_refresh_cache] raises the status 502 and every
    field of the cache is as before. *)
Theorem unparsable_feed_raises_and_keeps_cache force now clock st r :
  cache_fresh cfg force now (cache st) = false ->
  requests_get (SOURCE_FEED_URL cfg) (fetches st) = Ok r ->
  bozo (feedparser_parse r) = true ->
  entries (feedparser_parse r) = [] ->
  snd (maybe_refresh_cache cfg force now clock st) = Raise (HTTPException 502)
  /\ cache (fst (maybe_refresh_cache cfg force now clock st)) = cache st.
Proof.
  intros Hf Hr Hb He.
  pose proof (fetch_source_feed_cases (fetches st)) as Hc.
  rewrite Hr in Hc. cbv zeta in Hc. rewrite Hb, He in Hc. simpl in Hc.
  unfold maybe_refresh_cache. rewrite Hf, Hc. split; reflexivity.
Qed.

(** C7: after a call that refreshed the cache at time [now1], a call
    without [force] at a time [now2] less than the TTL later returns at
    once: no request is sent, so the two calls sent exactly one. *)
Theorem second_call_within_ttl_sends_nothing
    force now1 clock1 st0 st1 now2 clock2 :
  maybe_refresh_cache cfg force now1 clock1 st0 = (st1, Ok tt) ->
  fetches st1 = S (fetches st0) ->
  (now2 - now1 < inject_Z (CACHE_TTL cfg))%Q ->
  maybe_refresh_cache cfg false now2 clock2 st1 = (st1, Ok tt)
  /\ fetches (fst (maybe_refresh_cache cfg false now2 clock2 st1))
     = S (fetches st0).
Proof.
  intros H1 Hn Hlt.
  assert (maybe_refresh_cache cfg false now2 clock2 st1 = (st1, Ok tt)) as Hgoal;
    [|split; [exact Hgoal|rewrite Hgoal; exact Hn]].
  pose proof (refresh_cases force now1 clock1 st0) as Ho.
  cbv zeta in Ho. rewrite H1 in Ho. simpl in Ho.
  destruct Ho as [[_ Heq]|[_ [_ Ho]]].
  - injection Heq as <-. lia.
  - destruct Ho as [(fp & z & g & _ & Hz & Hg & _ & Hc)
                   |[(e & _ & He & _)|[(fp & e & _ & _ & He & _)
                   |(fp & z & e & _ & _ & _ & He & _)]]];
      try discriminate.
    unfold maybe_refresh_cache.
    replace (cache_fresh cfg false now2 (cache st1)) with true; [reflexivity|].
    rewrite Hc. unfold cache_fresh. simpl.
    rewrite (etree_tostring_truthy _ _ Hz), (etree_tostring_truthy _ _ Hg).
    unfold Qlt_bool.
    destruct (Qle_bool (inject_Z (CACHE_TTL cfg)) (now2 - now1)) eqn:Hle;
      [|reflexivity].
    apply Qle_bool_iff in Hle. exfalso. apply (Qlt_not_le _ _ Hlt Hle).
Qed.

End CacheProperties.

(** C2 fails as stated: the well-formed feed without items parses to zero
    entries, no exception is raised and the cache is replaced. *)
Lemma empty_feed_is_cached :
  let st := mk_state old_cache 0 in
  let out := @maybe_refresh_cache env_empty_feed sample_cfg true 1000 sample_clock st in
  entries (@feedparser_parse env_empty_feed EMPTY_RSS) = []
  /\ snd out = Ok tt
  /\ cache (fst out) <> old_cache.
Proof.
  cbv zeta. vm_compute. repeat split; try reflexivity. discriminate.
Qed.

Lemma unparsable_feed_witness :
  let st := mk_state old_cache 0 in
  let out := @maybe_refresh_cache env_broken_feed sample_cfg true 1000 sample_clock st in
  snd out = Raise (HTTPException 502) /\ cache (fst out) = old_cache.
Proof.
  cbv zeta.
  apply (@unparsable_feed_raises_and_keeps_cache env_broken_feed sample_cfg
           true 1000%Q sample_clock (mk_state old_cache 0) NOT_XML);
    reflexivity.
Defined.

Lemma second_call_witness :
  @maybe_refresh_cache env_empty_feed sample_cfg false 1100 sample_clock st_first
    = (st_first, Ok tt)
  /\ fetches (fst (@maybe_refresh_cache env_empty_feed sample_cfg false 1100
                     sample_clock st_first)) = 1.
Proof.
  apply (@second_call_within_ttl_sends_nothing env_empty_feed sample_cfg
           false 1000%Q sample_clock (mk_state initial_cache 0) st_first
           1100%Q sample_clock); vm_compute; reflexivity.
Defined.

(** ** Identity *)

Lemma get_or_present x y :
  get_or x y = match present x with Some v => v | None => y end.
Proof. destruct x as [[|c s]|]; reflexivity. Qed.

Lemma guid_source_resolved e : guid_source e = resolved_identity e.
Proof.
  unfold guid_source, resolved_identity. rewrite !get_or_present.
  destruct (present (e_id e)), (present (e_guid e)), (present (e_link e));
    reflexivity.
Qed.

Lemma hex_digit_is_hex x : is_hex (SHA256.hex_digit x) = true.
Proof.
  unfold SHA256.hex_digit.
  assert (N.to_nat (x mod 16) < 16) as Hlt.
  { pose proof (N.mod_lt x 16). lia. }
  remember (N.to_nat (x mod 16)) as n eqn:Hn. clear Hn.
  do 16 (destruct n as [|n]; [reflexivity|]). lia.
Qed.

Lemma hex8_is_hex w : Forall (fun c => is_hex c = true) (SHA256.hex8 w).
Proof. unfold SHA256.hex8. repeat constructor; apply hex_digit_is_hex. Qed.

(** C5: the GUID is the SHA-256 digest, 64 lower-case hexadecimal digits,
    of the first present value among id, guid and link, or else of the
    title followed by the published date string; entries that agree on
    that value get the same GUID whatever their other fields are. *)
Theorem guid_for_is_digest_of_identity (e : Entry) :
  guid_for e = sha256_hexdigest (resolved_identity e)
  /\ length (guid_for e) = 64
  /\ Forall (fun c => is_hex c = true) (guid_for e)
  /\ (forall e', resolved_identity e' = resolved_identity e ->
                 guid_for e' = guid_for e).
Proof.
  unfold guid_for. rewrite guid_source_resolved.
  split; [reflexivity|]. split; [reflexivity|]. split.
  - unfold sha256_hexdigest, SHA256.hexdigest.
    repeat (apply Forall_app; split); apply hex8_is_hex.
  - intros e' H. rewrite guid_source_resolved, H. reflexivity.
Qed.

(** ** The items of the two feeds *)

Section ItemProperties.
Context {X : Externals}.
Variable cfg : Config.

Lemma safe_pubdate_no_date clock e :
  e_published_parsed e = None -> e_updated_parsed e = None ->
  safe_pubdate clock e = clock.
Proof. unfold safe_pubdate. intros -> ->. reflexivity. Qed.

Lemma item_head_fallbacks clock e :
  e_link e = None ->
  e_published_parsed e = None -> e_updated_parsed e = None ->
  item_head cfg clock e
  = [ text_elem (L "title") (get_or (e_title e) UNTITLED);
      text_elem (L "link") (FEED_LINK cfg);
      text_elem (L "guid") (guid_for e);
      text_elem (L "pubDate") (dt_to_rfc822 clock) ].
Proof.
  intros Hl Hp Hu. unfold item_head.
  rewrite (safe_pubdate_no_date clock e Hp Hu), Hl. reflexivity.
Qed.

Lemma zen_item_is_item clock e : xml_tag (zen_item cfg clock e) = L "item".
Proof. unfold zen_item. now destruct (extract_main_html cfg e). Qed.

Lemma tg_item_is_item clock e : xml_tag (tg_item cfg clock e) = L "item".
Proof. unfold tg_item. now destruct (extract_main_html cfg e). Qed.

(** What [etree_tostring] returns is decided by lxml alone. *)
Lemma etree_tostring_cases root :
  (lxml_accepts root = true
   /\ etree_tostring root = Ok (XML_DECLARATION ++ lxml_render root))
  \/ (lxml_accepts root = false /\ etree_tostring root = Raise ValueError).
Proof. unfold etree_tostring. destruct (lxml_accepts root); auto. Qed.

(** C6, as the code has it: an entry without link and without published
    or updated date gets a complete item in both feeds: title, link,
    guid and pubDate, then the two full-text fields and what follows them
    in the rich feed, and the description in the restricted one.  The link
    is the configured feed link ([FEED_LINK], not [SITE_BASE]) and the
    pubDate is the current time, as the builder reads it, in RFC-822 form.
    In the document of a feed that holds the entry that item is among the
    items.  The builders are not free of exceptions for such an entry:
    each returns the document when lxml takes it and raises [ValueError]
    when lxml refuses it. *)
Theorem item_without_link_and_date clock1 clock2 e :
  e_link e = None ->
  e_published_parsed e = None -> e_updated_parsed e = None ->
  let head clock := [ text_elem (L "title") (get_or (e_title e) UNTITLED);
                      text_elem (L "link") (FEED_LINK cfg);
                      text_elem (L "guid") (guid_for e);
                      text_elem (L "pubDate") (dt_to_rfc822 clock) ] in
  let body := sanitize_for_zen (fst (extract_main_html cfg e)) in
  zen_item cfg clock1 e
  = Elem (L "item") [] None
      (head clock1
       ++ [ Elem (qname NS_CONTENT (L "encoded")) [] (Some (CDATA body)) [];
            Elem (qname NS_YANDEX (L "full-text")) [] (Some (CDATA body)) [] ]
       ++ zen_media (pick_enclosure cfg e (snd (extract_main_html cfg e)))
       ++ zen_author e ++ zen_categories e ++ zen_description body)
  /\ tg_item cfg clock2 e
     = Elem (L "item") [] None
         (head clock2
          ++ [text_elem (L "description")
                (chunk_plain_text
                   (get_text [LF]
                      (bs_parse (sanitize_for_tg (fst (extract_main_html cfg e)))))
                   (TELEGRAM_MAX cfg))])
  /\ (forall fp, In e (entries fp) ->
        In (zen_item cfg clock1 e) (items_of (zen_tree cfg clock1 fp))
        /\ In (tg_item cfg clock2 e) (items_of (tg_tree cfg clock2 fp))
        /\ ((lxml_accepts (zen_tree cfg clock1 fp) = true
             /\ build_zen_xml cfg clock1 fp
                = Ok (XML_DECLARATION ++ lxml_render (zen_tree cfg clock1 fp)))
            \/ (lxml_accepts (zen_tree cfg clock1 fp) = false
                /\ build_zen_xml cfg clock1 fp = Raise ValueError))
        /\ ((lxml_accepts (tg_tree cfg clock2 fp) = true
             /\ build_tg_xml cfg clock2 fp
                = Ok (XML_DECLARATION ++ lxml_render (tg_tree cfg clock2 fp)))
            \/ (lxml_accepts (tg_tree cfg clock2 fp) = false
                /\ build_tg_xml cfg clock2 fp = Raise ValueError))).
Proof.
  intros Hl Hp Hu. cbv beta zeta.
  rewrite <- (item_head_fallbacks clock1 e Hl Hp Hu).
  rewrite <- (item_head_fallbacks clock2 e Hl Hp Hu).
  split; [|split].
  - unfold zen_item. now destruct (extract_main_html cfg e) as [raw fi].
  - unfold tg_item. now destruct (extract_main_html cfg e) as [raw fi].
  - intros fp Hin. split; [|split; [|split]].
    + unfold items_of. apply filter_In. split.
      * unfold zen_tree. cbn [xml_children flat_map]. rewrite app_nil_r.
        apply in_or_app. right. now apply in_map.
      * rewrite zen_item_is_item. now apply str_eqb_eq.
    + unfold items_of. apply filter_In. split.
      * unfold tg_tree. cbn [xml_children flat_map]. rewrite app_nil_r.
        apply in_or_app. right. now apply in_map.
      * rewrite tg_item_is_item. now apply str_eqb_eq.
    + apply etree_tostring_cases.
    + apply etree_tostring_cases.
Qed.

Lemma zen_media_tags enc :
  Forall (fun x => xml_tag x <> L "description") (zen_media enc).
Proof.
  destruct enc as [[url mime]|]; simpl; repeat constructor; discriminate.
Qed.

Lemma zen_author_tags e :
  Forall (fun x => xml_tag x <> L "description") (zen_author e).
Proof.
  unfold zen_author. destruct (e_author e) as [a|]; [|constructor].
  destruct (truthy a); repeat constructor; discriminate.
Qed.

Lemma zen_categories_tags e :
  Forall (fun x => xml_tag x <> L "description") (zen_categories e).
Proof.
  unfold zen_categories.
  induction (firstn 10 (match e_tags e with Some ts => ts | None => [] end))
    as [|term l IH]; simpl; [constructor|].
  apply Forall_app; split; [|exact IH].
  destruct term as [tm|]; [|constructor].
  destruct (truthy tm); repeat constructor; discriminate.
Qed.

(** C10: when the sanitized rich body has no [p] element, the item of
    the rich feed has no [description] child. *)
Theorem no_paragraph_no_description clock e :
  find (L "p") (bs_parse (sanitize_for_zen (fst (extract_main_html cfg e))))
    = None ->
  ~ In (L "description") (map xml_tag (xml_children (zen_item cfg clock e))).
Proof.
  intros Hp. unfold zen_item.
  destruct (extract_main_html cfg e) as [raw fi]. simpl fst in Hp.
  unfold zen_description. rewrite Hp. rewrite app_nil_r.
  cbn [xml_children]. intros Hin. apply in_map_iff in Hin.
  destruct Hin as (x & Hx & Hin).
  assert (Forall (fun x => xml_tag x <> L "description")
            (item_head cfg clock e
             ++ [ Elem (qname NS_CONTENT (L "encoded")) []
                    (Some (CDATA (sanitize_for_zen raw))) [];
                  Elem (qname NS_YANDEX (L "full-text")) []
                    (Some (CDATA (sanitize_for_zen raw))) [] ]
             ++ zen_media (pick_enclosure cfg e fi)
             ++ zen_author e ++ zen_categories e)) as Hall.
  { repeat (apply Forall_app; split);
      auto using zen_media_tags, zen_author_tags, zen_categories_tags;
      repeat constructor; discriminate. }
  rewrite Forall_forall in Hall. exact (Hall x Hin Hx).
Qed.
End ItemProperties.

(** C6 fails as stated, twice.  With a feed link that differs from the
    site base, the item of an entry without link carries the feed link.
    And an entry without link and without date whose title holds a control
    character makes both builders raise, lxml refusing the title. *)
Lemma link_falls_back_to_feed_link :
  let e := bare_entry (L "hello") in
  let link_of item := xml_text (nth 1 (xml_children item) (Elem [] [] None [])) in
  let e' := entry_with_title CONTROL_TITLE in
  (e_link e = None
   /\ link_of (@zen_item env_empty_feed split_cfg sample_clock e)
      = Some (Plain (FEED_LINK split_cfg))
   /\ link_of (@tg_item env_empty_feed split_cfg sample_clock e)
      = Some (Plain (FEED_LINK split_cfg))
   /\ FEED_LINK split_cfg <> SITE_BASE split_cfg)
  /\ (e_link e' = None /\ e_published_parsed e' = None
      /\ e_updated_parsed e' = None
      /\ @build_zen_xml env_control_char sample_cfg sample_clock (mk_fp true [e'])
         = Raise ValueError
      /\ @build_tg_xml env_control_char sample_cfg sample_clock (mk_fp true [e'])
         = Raise ValueError).
Proof.
  cbv zeta. split.
  - repeat split; try reflexivity. vm_compute. discriminate.
  - repeat split; vm_compute; reflexivity.
Qed.

Lemma item_without_link_and_date_witness :
  @tg_item env_empty_feed sample_cfg sample_clock (bare_entry (L "hello"))
  = Elem (L "item") [] None
      [ text_elem (L "title") UNTITLED;
        text_elem (L "link") (FEED_LINK sample_cfg);
        text_elem (L "guid") (guid_for (bare_entry (L "hello")));
        text_elem (L "pubDate") (@dt_to_rfc822 env_empty_feed sample_clock);
        text_elem (L "description") (L "hello") ]
  /\ In (@tg_item env_empty_feed sample_cfg sample_clock (bare_entry (L "hello")))
        (items_of (@tg_tree env_empty_feed sample_cfg sample_clock
                     (mk_fp true [bare_entry (L "hello")]))).
Proof.
  pose proof (@item_without_link_and_date env_empty_feed sample_cfg
                sample_clock sample_clock (bare_entry (L "hello"))
                eq_refl eq_refl eq_refl) as H.
  cbv beta zeta in H. destruct H as (_ & Hg & Hfp). split.
  - rewrite Hg. vm_compute. reflexivity.
  - exact (proj1 (proj2 (Hfp (mk_fp true [bare_entry (L "hello")])
                           (or_introl eq_refl)))).
Defined.

Lemma no_paragraph_witness :
  ~ In (L "description")
       (map xml_tag
          (xml_children (@zen_item env_empty_feed sample_cfg sample_clock
                           (bare_entry (L "hello <b>world</b>"))))).
Proof.
  apply (@no_paragraph_no_description env_empty_feed sample_cfg sample_clock
           (bare_entry (L "hello <b>world</b>"))).
  vm_compute. reflexivity.
Defined.

(** ** Scanning *)

Lemma span_app p s : fst (span p s) ++ snd (span p s) = s.
Proof.
  induction s as [|c s IH]; simpl; [reflexivity|].
  destruct (p c); [|reflexivity].
  destruct (span p s) as [a b]. simpl in *. now rewrite IH.
Qed.

Lemma span_fst_all p s : Forall (fun c => p c = true) (fst (span p s)).
Proof.
  induction s as [|c s IH]; simpl; [constructor|].
  destruct (p c) eqn:Hc; [|constructor].
  destruct (span p s) as [a b]. simpl in *. constructor; assumption.
Qed.

Lemma span_snd_head p s c r : snd (span p s) = c :: r -> p c = false.
Proof.
  induction s as [|d s IH]; simpl; [discriminate|].
  destruct (p d) eqn:Hd.
  - destruct (span p s) as [a b]. simpl in *. exact IH.
  - simpl. intros H. injection H as <- _. exact Hd.
Qed.

Lemma span_all p s :
  Forall (fun c => p c = true) s -> span p s = (s, []).
Proof.
  induction 1 as [|c s Hc _ IH]; simpl; [reflexivity|].
  now rewrite Hc, IH.
Qed.

Lemma span_run p run post :
  Forall (fun c => p c = true) run ->
  match post with c :: _ => p c = false | [] => True end ->
  span p (run ++ post) = (run, post).
Proof.
  induction 1 as [|c run Hc _ IH]; intros Hpost; simpl.
  - destruct post as [|d post]; [reflexivity|]. simpl. now rewrite Hpost.
  - now rewrite Hc, (IH Hpost).
Qed.

Lemma span_length p s :
  length (fst (span p s)) + length (snd (span p s)) = length s.
Proof. rewrite <- (span_app p s) at 3. now rewrite length_app. Qed.

Lemma drop_while_suffix p s : exists a, s = a ++ drop_while p s
                                         /\ Forall (fun c => p c = true) a.
Proof.
  exists (fst (span p s)). split.
  - unfold drop_while. now rewrite span_app.
  - apply span_fst_all.
Qed.

Lemma drop_while_head p s c r : drop_while p s = c :: r -> p c = false.
Proof. apply span_snd_head. Qed.

(** [strip] takes white space off both ends and nothing else. *)
Lemma strip_spec s :
  exists lead trail,
    s = lead ++ strip s ++ trail
    /\ Forall (fun c => is_space c = true) lead
    /\ Forall (fun c => is_space c = true) trail.
Proof.
  unfold strip.
  destruct (drop_while_suffix is_space s) as (lead & Hs & Hlead).
  destruct (drop_while_suffix is_space (rev (drop_while is_space s)))
    as (tr & Hr & Htr).
  exists lead, (rev tr). repeat split.
  - rewrite Hs at 1. f_equal.
    rewrite <- (rev_involutive (drop_while is_space s)) at 1.
    rewrite Hr at 1. now rewrite rev_app_distr.
  - exact Hlead.
  - apply Forall_rev. exact Htr.
Qed.

Lemma strip_length s : length (strip s) <= length s.
Proof.
  destruct (strip_spec s) as (lead & trail & Hs & _).
  rewrite Hs at 2. rewrite !length_app. lia.
Qed.

(** The generic scanner, one step at a time. *)
Lemma re_sub_from_skip m repl k s :
  re_sub_from m repl k s = re_sub m repl (skipn k s).
Proof.
  revert k. induction s as [|c s IH]; intros [|k]; simpl; try reflexivity.
  apply IH.
Qed.

Lemma re_sub_cons m repl c s :
  re_sub m repl (c :: s)
  = match m (c :: s) with
    | Some (S k) => repl ++ re_sub m repl (skipn k s)
    | _ => c :: re_sub m repl s
    end.
Proof.
  unfold re_sub at 1. simpl.
  destruct (m (c :: s)) as [[|k]|]; try reflexivity.
  now rewrite re_sub_from_skip.
Qed.

(** ** Truncation *)

Lemma tail_match_some s n :
  tail_match s = Some n ->
  exists c s', s = c :: s' /\ is_space c = true /\ 1 <= n
               /\ (skipn n s = [] \/ skipn n s = [LF]).
Proof.
  unfold tail_match.
  pose proof (span_app is_space s) as Hs.
  pose proof (span_fst_all is_space s) as Hw.
  destruct (span is_space s) as [w r]. simpl in Hs, Hw.
  destruct w as [|c w']; [discriminate|].
  pose proof (span_app (fun c => negb (is_space c)) r) as Hr.
  destruct (span (fun c => negb (is_space c)) r) as [nn r']. simpl in Hr.
  assert (skipn (length (c :: w') + length nn) s = r') as Hskip.
  { rewrite <- Hs, <- Hr, app_assoc, <- length_app.
    now rewrite skipn_app, skipn_all, Nat.sub_diag. }
  intros H. exists c, (w' ++ r). split; [now rewrite <- Hs|].
  split; [now inversion Hw|].
  destruct r' as [|d [|d' r'']]; try discriminate.
  - injection H as <-. split; [simpl; lia|]. left. exact Hskip.
  - destruct (d =? LF)%N eqn:Hd; [|discriminate].
    injection H as <-. split; [simpl; lia|]. right.
    apply N.eqb_eq in Hd. subst d. exact Hskip.
Qed.

(** The first substitution of [chunk_plain_text] keeps a prefix; what it
    takes off starts with white space. *)
Lemma sub_tail_prefix s :
  exists q, s = sub_tail s ++ q
            /\ (q = [] \/ exists w q', q = w :: q' /\ is_space w = true).
Proof.
  induction s as [|c s IH].
  - exists []. split; [reflexivity|now left].
  - unfold sub_tail in *. rewrite re_sub_cons.
    destruct (tail_match (c :: s)) as [[|k]|] eqn:Hm.
    + apply tail_match_some in Hm. destruct Hm as (_ & _ & _ & _ & Hk & _). lia.
    + apply tail_match_some in Hm.
      destruct Hm as (c' & s' & Hcs & Hc & _ & Hskip).
      injection Hcs as <- <-. simpl in Hskip.
      assert (re_sub tail_match [] (skipn k s) = []) as ->.
      { destruct Hskip as [-> | ->]; reflexivity. }
      exists (c :: s). split; [reflexivity|]. right. now exists c, s.
    + destruct IH as (q & Hq & Hcase). exists q. split; [|exact Hcase].
      simpl. now rewrite <- Hq.
Qed.

Lemma sub_tail_length s : length (sub_tail s) <= length s.
Proof.
  destruct (sub_tail_prefix s) as (q & Hq & _).
  rewrite Hq at 2. rewrite length_app. lia.
Qed.

Lemma no_space_span s :
  existsb is_space s = false ->
  span (fun c => negb (is_space c)) s = (s, []).
Proof.
  intros H. apply span_all. apply Forall_forall. intros c Hc.
  destruct (is_space c) eqn:E; [|reflexivity].
  assert (existsb is_space s = true) by (apply existsb_exists; eauto).
  congruence.
Qed.

(** Where there is white space, the substitution does take something off. *)
Lemma sub_tail_shorter s :
  existsb is_space s = true -> length (sub_tail s) < length s.
Proof.
  induction s as [|c s IH]; [discriminate|].
  intros H. unfold sub_tail in *. rewrite re_sub_cons.
  destruct (tail_match (c :: s)) as [[|k]|] eqn:Hm.
  - apply tail_match_some in Hm. destruct Hm as (_ & _ & _ & _ & Hk & _). lia.
  - simpl. pose proof (sub_tail_length (skipn k s)) as Hl.
    unfold sub_tail in Hl. pose proof (length_skipn k s). lia.
  - destruct (existsb is_space s) eqn:Hs.
    + specialize (IH eq_refl). simpl. lia.
    + exfalso. simpl in H. rewrite Hs, orb_false_r in H.
      unfold tail_match in Hm. simpl in Hm. rewrite H in Hm.
      assert (span is_space s = ([], s)) as Hsp.
      { destruct s as [|d s']; [reflexivity|]. simpl in Hs |- *.
        apply orb_false_iff in Hs. now rewrite (proj1 Hs). }
      rewrite Hsp, (no_space_span s Hs) in Hm. discriminate.
Qed.

Lemma sub_tail_no_space s :
  existsb is_space s = false -> sub_tail s = s.
Proof.
  induction s as [|c s IH]; [reflexivity|].
  intros H. simpl in H. apply orb_false_iff in H. destruct H as [Hc Hs].
  unfold sub_tail in *. rewrite re_sub_cons.
  destruct (tail_match (c :: s)) as [[|k]|] eqn:Hm.
  - now rewrite IH.
  - apply tail_match_some in Hm. destruct Hm as (c' & s' & Hcs & Hc' & _).
    injection Hcs as <- <-. congruence.
  - now rewrite IH.
Qed.

Lemma existsb_rev_str (p : N -> bool) (l : str) :
  existsb p (rev l) = existsb p l.
Proof.
  induction l as [|c l IH]; [reflexivity|].
  simpl. rewrite existsb_app, IH. simpl. rewrite orb_false_r. apply orb_comm.
Qed.

Lemma strip_no_space s : existsb is_space s = false -> strip s = s.
Proof.
  intros H.
  assert (forall l, existsb is_space l = false -> drop_while is_space l = l) as Hd.
  { intros [|d l] Hl; [reflexivity|]. unfold drop_while. simpl in *.
    apply orb_false_iff in Hl. now rewrite (proj1 Hl). }
  unfold strip. rewrite (Hd s H), Hd, rev_involutive; [reflexivity|].
  rewrite existsb_rev_str. exact H.
Qed.

Lemma slice_to_firstn s k : (0 <= k)%Z -> slice_to s k = firstn (Z.to_nat k) s.
Proof. intros H. unfold slice_to. apply Z.leb_le in H. now rewrite H. Qed.

Lemma strip_last s b c : strip s = b ++ [c] -> is_space c = false.
Proof.
  unfold strip. intros H.
  apply (f_equal (@rev N)) in H. rewrite rev_involutive, rev_app_distr in H.
  simpl in H. exact (drop_while_head _ _ _ _ H).
Qed.

(** ** The nearest white space *)

Lemma no_space_not_space n : no_space n -> Forall (fun c => negb (is_space c) = true) n.
Proof. apply Forall_impl. intros c ->. reflexivity. Qed.

Lemma ends_no_space_tail c s : s <> [] -> ends_no_space (c :: s) -> ends_no_space s.
Proof.
  intros _ H b d ->. apply (H (c :: b) d). reflexivity.
Qed.

(** The pattern of [chunk_plain_text] matches a run of white space, the
    word behind it and the end of the text, a last newline apart. *)
Lemma tail_match_run W N r :
  W <> [] -> all_space W -> no_space N ->
  r = [] \/ (r = [LF] /\ N <> []) ->
  tail_match (W ++ N ++ r) = Some (length W + length N).
Proof.
  intros HW Hsp HN Hr. unfold tail_match.
  rewrite (span_run is_space W (N ++ r) Hsp).
  - destruct W as [|c W']; [congruence|].
    rewrite (span_run (fun c => negb (is_space c)) N r (no_space_not_space N HN)).
    + destruct Hr as [->|[-> _]]; [reflexivity|]. now rewrite N.eqb_refl.
    + destruct Hr as [->|[-> _]]; [exact I|reflexivity].
  - destruct N as [|d N']; simpl.
    + destruct Hr as [->|[_ Hn]]; [exact I|congruence].
    + now inversion HN.
Qed.

(** Before the last run of white space no match starts. *)
Lemma tail_match_inside P W N r :
  P <> [] -> ends_no_space P ->
  W <> [] -> all_space W -> no_space N ->
  (r = [] /\ ~ (N = [] /\ W = [LF] /\ existsb is_space P = true))
  \/ (r = [LF] /\ N <> []) ->
  tail_match (P ++ W ++ N ++ r) = None.
Proof.
  intros HP Hend HW Hsp HN Hr.
  pose proof (span_app is_space P) as Hp1.
  pose proof (span_fst_all is_space P) as Hw.
  destruct (span is_space P) as [w rest1] eqn:E1. simpl in Hp1, Hw.
  destruct rest1 as [|x rest1'].
  { exfalso. rewrite app_nil_r in Hp1. subst w.
    destruct (exists_last HP) as (b & c & ->).
    pose proof (Hend b c eq_refl) as Hc.
    apply Forall_app in Hw. destruct Hw as [_ Hw]. inversion Hw. congruence. }
  assert (is_space x = false) as Hx.
  { apply (span_snd_head is_space P x rest1'). now rewrite E1. }
  pose proof (span_app (fun c => negb (is_space c)) (x :: rest1')) as Hp2.
  pose proof (span_fst_all (fun c => negb (is_space c)) (x :: rest1')) as Hn.
  pose proof (span_snd_head (fun c => negb (is_space c)) (x :: rest1')) as Htl.
  destruct (span (fun c => negb (is_space c)) (x :: rest1')) as [n tl] eqn:E2.
  simpl in Hp2, Hn, Htl.
  assert (exists n', n = x :: n') as [n' ->].
  { simpl in E2. rewrite Hx in E2. simpl in E2.
    destruct (span (fun c => negb (is_space c)) rest1'). injection E2 as <- _.
    eauto. }
  assert (P ++ W ++ N ++ r = w ++ (x :: n') ++ tl ++ W ++ N ++ r) as ->.
  { rewrite <- Hp1, <- Hp2, <- !app_assoc. reflexivity. }
  unfold tail_match.
  rewrite (span_run is_space w ((x :: n') ++ tl ++ W ++ N ++ r) Hw)
    by exact Hx.
  destruct w as [|w0 w']; [reflexivity|].
  assert (match tl ++ W ++ N ++ r with
          | c :: _ => negb (is_space c) = false
          | [] => True
          end) as Hhead.
  { destruct tl as [|y tl']; simpl.
    - destruct W as [|c W']; [congruence|]. simpl.
      inversion Hsp as [|? ? Hc _]. now rewrite Hc.
    - exact (Htl y tl' eq_refl). }
  rewrite (span_run (fun c => negb (is_space c)) (x :: n') _ Hn Hhead).
  destruct tl as [|y [|z tl'']].
  - (* the word of [P] runs up to the last run of white space *)
    simpl app. destruct W as [|c W']; [congruence|].
    destruct Hr as [[-> Hq]|[-> HNn]].
    + rewrite app_nil_r.
      destruct W' as [|c' W'']; [|reflexivity].
      destruct N as [|d N']; [|reflexivity].
      simpl. destruct (N.eqb_spec c LF) as [->|_]; [|reflexivity].
      exfalso. apply Hq. repeat split. rewrite <- Hp1. simpl.
      inversion Hw as [|? ? Hw0 _]. now rewrite Hw0.
    + destruct N as [|d N']; [congruence|].
      destruct W' as [|c' W'']; simpl; [|reflexivity].
      destruct N'; reflexivity.
  - (* [P] would end in white space *)
    exfalso.
    assert (negb (is_space y) = false) as Hy by exact (Htl y [] eq_refl).
    assert (is_space y = false) as Hy'.
    { apply (Hend (w0 :: w' ++ x :: n') y).
      rewrite <- Hp1, <- Hp2. simpl. rewrite <- !app_assoc. reflexivity. }
    rewrite Hy' in Hy. discriminate.
  - reflexivity.
Qed.

(** So the substitution of [chunk_plain_text] cuts at the last run of
    white space. *)
Lemma sub_tail_last_run P W N r :
  ends_no_space P ->
  W <> [] -> all_space W -> no_space N ->
  (r = [] /\ ~ (N = [] /\ W = [LF] /\ existsb is_space P = true))
  \/ (r = [LF] /\ N <> []) ->
  sub_tail (P ++ W ++ N ++ r) = P.
Proof.
  intros Hend HW Hsp HN Hr.
  induction P as [|c P IH].
  - simpl app.
    assert (tail_match (W ++ N ++ r) = Some (length W + length N)) as Hm.
    { apply tail_match_run; auto. destruct Hr as [[-> _]|H]; auto. }
    pose proof (tail_match_some _ _ Hm) as (c' & s' & Hs & _ & Hk & Hskip).
    rewrite Hs in *. unfold sub_tail. rewrite re_sub_cons, Hm.
    destruct (length W + length N) as [|k]; [lia|].
    simpl skipn in Hskip. destruct Hskip as [-> | ->]; reflexivity.
  - assert (tail_match ((c :: P) ++ W ++ N ++ r) = None) as Hm
      by (apply tail_match_inside; auto; discriminate).
    simpl app in *. unfold sub_tail in *. rewrite re_sub_cons, Hm.
    f_equal. apply IH.
    + destruct P as [|d P']; [intros [|? ?] ? H; discriminate|].
      apply (ends_no_space_tail c); [discriminate|exact Hend].
    + destruct Hr as [[-> Hq]|H]; [left|right; exact H].
      split; [reflexivity|]. intros (H1 & H2 & H3). apply Hq.
      repeat split; auto. simpl. rewrite H3. apply orb_true_r.
Qed.

Lemma ends_no_space_nil : ends_no_space [].
Proof. intros [|? ?] ? H; discriminate. Qed.

Lemma ends_no_space_one c : is_space c = false -> ends_no_space [c].
Proof.
  intros Hc b d Hb. destruct b as [|b0 [|b1 b']]; try discriminate.
  injection Hb as <-. exact Hc.
Qed.

Lemma ends_no_space_cons c s :
  s <> [] -> ends_no_space s -> ends_no_space (c :: s).
Proof.
  intros Hs H b d Hb. destruct b as [|b0 b'].
  - injection Hb as -> ->. congruence.
  - injection Hb as _ Hb. exact (H b' d Hb).
Qed.

(** A text that holds white space has a last run of it. *)
Lemma last_run s :
  existsb is_space s = true ->
  exists P W N,
    s = P ++ W ++ N
    /\ ends_no_space P /\ W <> [] /\ all_space W /\ no_space N.
Proof.
  induction s as [|c s IH]; [discriminate|].
  simpl. intros H.
  destruct (existsb is_space s) eqn:Hs.
  - destruct (IH eq_refl) as (P & W & N & -> & HP & HW & Hsp & HN).
    destruct P as [|p P'].
    + destruct (is_space c) eqn:Hc.
      * exists [], (c :: W), N.
        repeat apply conj; auto using ends_no_space_nil; try discriminate.
        constructor; assumption.
      * exists [c], W, N.
        repeat apply conj; auto using ends_no_space_one.
    + exists (c :: p :: P'), W, N. repeat apply conj; auto.
      apply ends_no_space_cons; [discriminate|exact HP].
  - rewrite orb_false_r in H.
    exists [], [c], s.
    repeat apply conj; auto using ends_no_space_nil; try discriminate.
    + repeat constructor. exact H.
    + apply Forall_forall. intros d Hd.
      destruct (is_space d) eqn:E; [|reflexivity].
      assert (existsb is_space s = true) by (apply existsb_exists; eauto).
      congruence.
Qed.

(** It is the run at which [chunk_plain_text] cuts, but for the newline
    that ends the text behind a word. *)
Lemma cut_point s :
  existsb is_space s = true ->
  exists P W N r,
    s = P ++ W ++ N ++ r
    /\ ends_no_space P /\ W <> [] /\ all_space W /\ no_space N
    /\ ((r = [] /\ ~ (N = [] /\ W = [LF] /\ existsb is_space P = true))
        \/ (r = [LF] /\ N <> [])).
Proof.
  intros H. destruct (last_run s H) as (P & W & N & -> & HP & HW & Hsp & HN).
  destruct N as [|n N'].
  2:{ exists P, W, (n :: N'), [].
      refine (conj _ (conj HP (conj HW (conj Hsp (conj HN _))))).
      - now rewrite app_nil_r.
      - left. split; [reflexivity|]. intros (E & _). discriminate E. }
  destruct (list_eq_dec N.eq_dec W [LF]) as [->|HWne].
  2:{ exists P, W, [], [].
      refine (conj eq_refl (conj HP (conj HW (conj Hsp (conj HN _))))).
      left. split; [reflexivity|]. intros (_ & E & _). contradiction. }
  destruct (existsb is_space P) eqn:HPs.
  2:{ exists P, [LF], [], [].
      refine (conj eq_refl (conj HP (conj HW (conj Hsp (conj HN _))))).
      left. split; [reflexivity|]. intros (_ & _ & E). congruence. }
  destruct (last_run P HPs) as (P' & W' & N' & -> & HP' & HW' & Hsp' & HN').
  exists P', W', N', [LF].
  refine (conj _ (conj HP' (conj HW' (conj Hsp' (conj HN' _))))).
  - now rewrite <- !app_assoc.
  - right. split; [reflexivity|].
    intros ->. rewrite app_nil_r in HP.
    destruct (exists_last HW') as (b & d & ->).
    pose proof (HP (P' ++ b) d ltac:(now rewrite <- app_assoc)) as Hd.
    apply Forall_app in Hsp'. destruct Hsp' as [_ Hsp'].
    inversion Hsp'. congruence.
Qed.

(** X27: a text longer than the maximum, of at least one character, whose
    first [m - 1] characters hold white space is cut at the last run of
    white space among them: the word behind that run (the one the limit
    cuts, if any) goes with the run, what stands before is stripped and
    one ellipsis is appended.  The pattern ends in [$], which also matches
    before a newline that ends the text: when the [m - 1] characters end in
    a word and one newline, that whole word goes as well.  Such a place to
    cut exists whenever the [m - 1] characters hold white space.  Where
    they hold none they are all kept. *)
Theorem chunk_plain_text_cuts_at_last_space s m :
  (1 <= m)%Z -> (m < Z.of_nat (length s))%Z ->
  let cut := firstn (Z.to_nat (m - 1)) s in
  let cut_at P W N r :=
    cut = P ++ W ++ N ++ r
    /\ ends_no_space P /\ W <> [] /\ all_space W /\ no_space N
    /\ ((r = [] /\ ~ (N = [] /\ W = [LF] /\ existsb is_space P = true))
        \/ (r = [LF] /\ N <> [])) in
  (forall P W N r,
      cut_at P W N r -> chunk_plain_text s m = strip P ++ [ELLIPSIS])
  /\ (existsb is_space cut = true -> exists P W N r, cut_at P W N r)
  /\ (existsb is_space cut = false ->
      chunk_plain_text s m = cut ++ [ELLIPSIS]).
Proof.
  intros Hm Hlong. cbv beta zeta. unfold chunk_plain_text.
  assert ((Z.of_nat (length s) <=? m)%Z = false) as -> by (apply Z.leb_gt; lia).
  rewrite (slice_to_firstn s (m - 1)%Z) by lia.
  split; [|split].
  - intros P W N r (-> & Hend & HW & Hsp & HN & Hr).
    now rewrite (sub_tail_last_run P W N r Hend HW Hsp HN Hr).
  - apply cut_point.
  - intros Hws. rewrite (sub_tail_no_space _ Hws).
    now rewrite (strip_no_space _ Hws).
Qed.

Lemma chunk_plain_text_cuts_at_last_space_witness :
  chunk_plain_text (L "ab cd ef gh") 10 = L "ab cd ef" ++ [ELLIPSIS]
  /\ chunk_plain_text (L "ab cd" ++ [LF] ++ L "efgh") 7 = L "ab" ++ [ELLIPSIS].
Proof.
  split.
  - apply (proj1 (chunk_plain_text_cuts_at_last_space (L "ab cd ef gh") 10
                    ltac:(lia) ltac:(simpl; lia))
             (L "ab cd ef") (L " ") [] []).
    refine (conj eq_refl (conj _ (conj _ (conj _ (conj _ _))))).
    + apply ends_no_space_cons; [discriminate|].
      do 6 (apply ends_no_space_cons; [discriminate|]).
      now apply ends_no_space_one.
    + discriminate.
    + repeat constructor.
    + constructor.
    + left. split; [reflexivity|]. intros (_ & H & _). discriminate H.
  - apply (proj1 (chunk_plain_text_cuts_at_last_space
                    (L "ab cd" ++ [LF] ++ L "efgh") 7
                    ltac:(lia) ltac:(simpl; lia))
             (L "ab") (L " ") (L "cd") [LF]).
    refine (conj eq_refl (conj _ (conj _ (conj _ (conj _ _))))).
    + apply ends_no_space_cons; [discriminate|]. now apply ends_no_space_one.
    + discriminate.
    + repeat constructor.
    + repeat constructor.
    + right. split; [reflexivity|discriminate].
Defined.

(** C3, at inputs on which the code departs from it and from its own
    comments ("one block <= maxlen", "cut at a word").  A word longer than
    the maximum is cut in the middle; and with a maximum of zero the
    result is longer than the maximum. *)
Lemma chunk_cuts_word_and_overruns :
  chunk_plain_text (L "abcdefghij") 5 = L "abcd" ++ [ELLIPSIS]
  /\ chunk_plain_text (L "ab") 0 = L "a" ++ [ELLIPSIS]
  /\ (Z.of_nat (length (chunk_plain_text (L "ab") 0)) > 0)%Z.
Proof. repeat split. Qed.

(** ** Line breaks *)

Arguments br_step : simpl never.

Lemma br_scan_count q s : fst (br_scan q s) = br_count q s.
Proof.
  revert q. induction s as [|c s IH]; intros q; simpl; [reflexivity|].
  destruct (br_step q c) as [| |q'|]; simpl; try reflexivity.
  - rewrite <- (IH Between). now destruct (br_scan Between s).
  - rewrite <- (IH q'). destruct (br_scan q' s) as [[|k] l]; reflexivity.
  - rewrite <- (IH Between). now destruct (br_scan Between s).
Qed.

(** Behind all the rounds that a scan takes, no round starts. *)
Lemma br_scan_rest s :
  forall q, 1 <= br_count q s \/ q = Between ->
            br_count Between (skipn (snd (br_scan q s)) s) = 0.
Proof.
  induction s as [|c s IH]; intros q Hq; [reflexivity|].
  simpl in Hq |- *.
  destruct (br_step q c) as [| |q'|] eqn:Hstep.
  - destruct Hq as [Hq| ->]; [lia|]. simpl. now rewrite Hstep.
  - specialize (IH Between (or_intror eq_refl)).
    destruct (br_scan Between s) as [k l]. exact IH.
  - pose proof (br_scan_count q' s) as Hc.
    destruct (br_scan q' s) as [[|k] l] eqn:Hs; simpl in Hc.
    + destruct Hq as [Hq| ->]; [lia|]. simpl. rewrite Hstep. now rewrite <- Hc.
    + assert (1 <= br_count q' s) as H1 by lia.
      specialize (IH q' (or_introl H1)). rewrite Hs in IH. exact IH.
  - specialize (IH Between (or_intror eq_refl)).
    destruct (br_scan Between s) as [k l]. exact IH.
Qed.

Lemma br_match_some s n :
  br_match s = Some n ->
  3 <= br_count Between s /\ br_count Between (skipn n s) = 0.
Proof.
  unfold br_match.
  pose proof (br_scan_count Between s) as Hc.
  pose proof (br_scan_rest s Between (or_intror eq_refl)) as Hr.
  destruct (br_scan Between s) as [k l]. simpl in Hc, Hr.
  destruct (3 <=? k) eqn:Hk; [|discriminate].
  intros H. injection H as <-. apply Nat.leb_le in Hk. split; [lia|exact Hr].
Qed.

Lemma br_match_none_iff s : br_match s = None <-> br_count Between s <= 2.
Proof.
  unfold br_match. pose proof (br_scan_count Between s) as Hc.
  destruct (br_scan Between s) as [k l]. simpl in Hc.
  destruct (3 <=? k) eqn:Hk.
  - apply Nat.leb_le in Hk. split; [discriminate|lia].
  - apply Nat.leb_gt in Hk. split; [lia|reflexivity].
Qed.

Lemma br_count_BR2 t : br_count Between (BR2 ++ t) = 2 + br_count Between t.
Proof.
  change (BR2 ++ t) with (60 :: 98 :: 114 :: 62 :: 60 :: 98 :: 114 :: 62 :: t)%N.
  reflexivity.
Qed.

Lemma br_count_BR2_inside q t :
  q <> Between -> br_count q (BR2 ++ t) = 0.
Proof.
  change (BR2 ++ t) with (60 :: 98 :: 114 :: 62 :: 60 :: 98 :: 114 :: 62 :: t)%N.
  destruct q; try reflexivity. congruence.
Qed.

(** The second substitution never adds a round at any place. *)
Lemma br_count_sub_br n :
  forall s, length s <= n ->
            forall q, br_count q (sub_br s) <= br_count q s.
Proof.
  induction n as [|n IH]; intros [|c s] Hlen q; simpl in Hlen; try lia;
    try (unfold sub_br; simpl; lia).
  unfold sub_br. rewrite re_sub_cons.
  destruct (br_match (c :: s)) as [[|k]|] eqn:Hm.
  - simpl. destruct (br_step q c); auto; try lia; try (apply IH; lia).
    apply le_n_S. apply IH. lia.
  - apply br_match_some in Hm. destruct Hm as [H3 Hrest]. simpl skipn in Hrest.
    destruct q.
    + rewrite br_count_BR2.
      assert (br_count Between (sub_br (skipn k s)) <= 0) as H0.
      { rewrite <- Hrest. apply IH. pose proof (length_skipn k s). lia. }
      unfold sub_br in H0. lia.
    + rewrite br_count_BR2_inside by discriminate. lia.
    + rewrite br_count_BR2_inside by discriminate. lia.
    + rewrite br_count_BR2_inside by discriminate. lia.
    + rewrite br_count_BR2_inside by discriminate. lia.
  - simpl. destruct (br_step q c); auto; try lia; try (apply IH; lia).
    apply le_n_S. apply IH. lia.
Qed.

Lemma br_count_sub_br_head s : br_count Between (sub_br s) <= 2.
Proof.
  destruct (br_match s) as [n|] eqn:Hm.
  - destruct s as [|c s]; [discriminate|].
    unfold sub_br. rewrite re_sub_cons, Hm.
    pose proof (br_match_some _ _ Hm) as [H3 Hrest].
    destruct n as [|k].
    + simpl skipn in Hrest. lia.
    + simpl skipn in Hrest. rewrite br_count_BR2.
      pose proof (br_count_sub_br (length (skipn k s)) (skipn k s) (le_n _) Between).
      unfold sub_br in *. lia.
  - apply br_match_none_iff in Hm.
    pose proof (br_count_sub_br (length s) s (le_n _) Between). lia.
Qed.

Lemma br_count_cons q c s :
  br_count q (c :: s)
  = match br_step q c with
    | Stop => 0
    | Skip => br_count Between s
    | Go q' => br_count q' s
    | Close => S (br_count Between s)
    end.
Proof. reflexivity. Qed.

(** One character of a scan over a known character. *)
Ltac br_count_step :=
  rewrite br_count_cons;
  match goal with
  | |- context [br_step ?q ?c] =>
      let a := eval vm_compute in (br_step q c) in
      change (br_step q c) with a
  end;
  cbv iota.

(** From a place inside the two tags that the substitution writes, at most
    one round starts, when none starts behind them. *)
Lemma br_count_in_BR2 i t :
  1 <= i <= 8 -> br_count Between t = 0 ->
  br_count Between (skipn i (BR2 ++ t)) <= 1.
Proof.
  intros Hi Ht.
  change (BR2 ++ t) with (60 :: 98 :: 114 :: 62 :: 60 :: 98 :: 114 :: 62 :: t)%N.
  destruct i as [|[|[|[|[|[|[|[|[|i]]]]]]]]]; simpl skipn; try lia;
    repeat br_count_step; lia.
Qed.

(** No place of the result starts three rounds. *)
Lemma br_count_sub_br_anywhere n :
  forall s, length s <= n ->
            forall i, br_count Between (skipn i (sub_br s)) <= 2.
Proof.
  induction n as [|n IH]; intros [|c s] Hlen i; simpl in Hlen; try lia;
    try (unfold sub_br, re_sub; simpl; rewrite skipn_nil; simpl; lia).
  destruct i as [|i]; [apply br_count_sub_br_head|].
  unfold sub_br. rewrite re_sub_cons.
  destruct (br_match (c :: s)) as [[|k]|] eqn:Hm.
  - simpl skipn. apply IH. lia.
  - apply br_match_some in Hm. destruct Hm as [_ Hrest]. simpl skipn in Hrest.
    assert (length (skipn k s) <= n) as Hk
      by (pose proof (length_skipn k s); lia).
    destruct (le_lt_dec (S i) 8) as [Hle|Hgt].
    + assert (br_count Between (sub_br (skipn k s)) = 0) as H0.
      { pose proof (br_count_sub_br n (skipn k s) Hk Between). lia. }
      pose proof (br_count_in_BR2 (S i) _ ltac:(lia) H0). unfold sub_br in *. lia.
    + rewrite skipn_app.
      change (length BR2) with 8.
      rewrite (skipn_all2 BR2) by (change (length BR2) with 8; lia).
      simpl app. apply (IH (skipn k s) Hk).
  - simpl skipn. apply IH. lia.
Qed.

(** ** White space *)

Lemma span_skipn p s : skipn (length (fst (span p s))) s = snd (span p s).
Proof.
  rewrite <- (span_app p s) at 2.
  now rewrite skipn_app, skipn_all, Nat.sub_diag.
Qed.

Lemma span_firstn p s : firstn (length (fst (span p s))) s = fst (span p s).
Proof.
  rewrite <- (span_app p s) at 2.
  now rewrite firstn_app, firstn_all, Nat.sub_diag, firstn_O, app_nil_r.
Qed.

(** A match of the first pattern is a run of white space, as long as it
    can be. *)
Lemma ws_match_some s n :
  ws_match s = Some n ->
  space_first s = true /\ 1 <= n
  /\ Forall (fun c => is_space c = true) (firstn n s)
  /\ space_first (skipn n s) = false.
Proof.
  unfold ws_match. intros H.
  pose proof (span_fst_all is_space s) as Hall.
  pose proof (span_skipn is_space s) as Hskip.
  pose proof (span_firstn is_space s) as Hfirst.
  pose proof (span_app is_space s) as Happ.
  destruct (fst (span is_space s)) as [|c w] eqn:Hw; [discriminate|].
  injection H as <-. repeat split.
  - rewrite <- Happ. simpl. now inversion Hall.
  - simpl. lia.
  - rewrite <- Hfirst in Hall. exact Hall.
  - replace (skipn _ s) with (snd (span is_space s)) by (symmetry; exact Hskip).
    destruct (snd (span is_space s)) as [|d r] eqn:Hr; [reflexivity|].
    simpl. exact (span_snd_head _ _ _ _ Hr).
Qed.

Lemma ws_match_none s : ws_match s = None -> space_first s = false.
Proof.
  unfold ws_match. destruct s as [|c s]; [reflexivity|]. simpl.
  destruct (is_space c); [|reflexivity].
  destruct (span is_space s). discriminate.
Qed.

(** After the first substitution every white space is one space. *)
Lemma single_spaced_sub_ws n :
  forall s, length s <= n ->
            forall b, (b = true -> space_first s = false) ->
                      single_spaced b (sub_ws s) = true.
Proof.
  induction n as [|n IH]; intros [|c s] Hlen b Hb; simpl in Hlen; try lia;
    try reflexivity.
  unfold sub_ws. rewrite re_sub_cons.
  destruct (ws_match (c :: s)) as [[|k]|] eqn:Hm.
  - apply ws_match_some in Hm. lia.
  - apply ws_match_some in Hm. destruct Hm as (Hc & _ & _ & Hrest).
    simpl in Hc. simpl skipn in Hrest.
    destruct b; [specialize (Hb eq_refl); simpl in Hb; congruence|].
    change ([SP] ++ re_sub ws_match [SP] (skipn k s))
      with (SP :: sub_ws (skipn k s)).
    cbn [single_spaced]. change (is_space SP) with true. cbv iota.
    rewrite N.eqb_refl. simpl.
    apply IH; [pose proof (length_skipn k s); lia|intros _; exact Hrest].
  - apply ws_match_none in Hm. simpl in Hm.
    cbn [single_spaced]. rewrite Hm.
    apply (IH s); [lia|discriminate].
Qed.

(** The first substitution keeps every other character, in order. *)
Lemma sub_ws_keeps_text n :
  forall s, length s <= n ->
            filter not_space (sub_ws s) = filter not_space s.
Proof.
  induction n as [|n IH]; intros [|c s] Hlen; simpl in Hlen; try lia;
    try reflexivity.
  unfold sub_ws. rewrite re_sub_cons.
  destruct (ws_match (c :: s)) as [[|k]|] eqn:Hm.
  - apply ws_match_some in Hm. lia.
  - apply ws_match_some in Hm. destruct Hm as (_ & _ & Hrun & _).
    transitivity (filter not_space (skipn k s)).
    + change ([SP] ++ re_sub ws_match [SP] (skipn k s))
        with (SP :: sub_ws (skipn k s)).
      cbn [filter]. change (not_space SP) with false. cbv iota.
      apply IH. pose proof (length_skipn k s). lia.
    + rewrite <- (firstn_skipn (S k) (c :: s)) at 1.
      rewrite filter_app. simpl skipn.
      assert (filter not_space (firstn (S k) (c :: s)) = []) as ->; [|reflexivity].
      induction Hrun as [|d l Hd _ IHrun]; [reflexivity|].
      simpl. unfold not_space at 1. now rewrite Hd.
  - apply ws_match_none in Hm. simpl in Hm.
    assert (not_space c = true) as Hc by (unfold not_space; now rewrite Hm).
    cbn [filter]. rewrite Hc. f_equal. apply IH. lia.
Qed.

Lemma single_spaced_weaken s :
  single_spaced true s = true -> single_spaced false s = true.
Proof.
  destruct s as [|c s]; [reflexivity|]. simpl.
  destruct (is_space c); [|auto]. rewrite andb_false_r. discriminate.
Qed.

Lemma single_spaced_skipn k :
  forall s b, single_spaced b s = true -> single_spaced false (skipn k s) = true.
Proof.
  induction k as [|k IH]; intros s b H.
  - destruct b; [apply single_spaced_weaken|]; exact H.
  - destruct s as [|c s]; [reflexivity|]. simpl in H |- *.
    destruct (is_space c).
    + apply andb_true_iff in H. exact (IH s true (proj2 H)).
    + exact (IH s false H).
Qed.

(** The second substitution leaves it so. *)
Lemma single_spaced_sub_br n :
  forall s, length s <= n ->
            forall b, single_spaced b s = true ->
                      single_spaced b (sub_br s) = true.
Proof.
  induction n as [|n IH]; intros [|c s] Hlen b H; simpl in Hlen; try lia;
    try reflexivity.
  unfold sub_br. rewrite re_sub_cons.
  assert (single_spaced b (c :: re_sub br_match BR2 s) = true) as Hcopy.
  { simpl in H |- *. destruct (is_space c).
    - apply andb_true_iff in H. destruct H as [H1 H2]. rewrite H1. simpl.
      apply (IH s); [lia|exact H2].
    - apply (IH s); [lia|exact H]. }
  destruct (br_match (c :: s)) as [[|k]|] eqn:Hm; try exact Hcopy.
  change (BR2 ++ re_sub br_match BR2 (skipn k s))
    with (60 :: 98 :: 114 :: 62 :: 60 :: 98 :: 114 :: 62 :: sub_br (skipn k s))%N.
  cbn [single_spaced].
  change (is_space 60%N) with false. change (is_space 98%N) with false.
  change (is_space 114%N) with false. change (is_space 62%N) with false.
  cbv iota.
  apply IH; [pose proof (length_skipn k s); lia|].
  exact (single_spaced_skipn (S k) (c :: s) b H).
Qed.

(** ** Line breaks, against the wording of the pattern *)

Lemma br_step_space q c :
  is_space c = true ->
  br_step q c = match q with
                | Between => Skip
                | SeenBr => Go SeenBr
                | _ => Stop
                end.
Proof.
  intros H. unfold br_step. rewrite H.
  destruct q; try reflexivity.
  - destruct (N.eqb_spec c 98); [subst; discriminate|reflexivity].
  - destruct (N.eqb_spec c 114); [subst; discriminate|reflexivity].
  - destruct (N.eqb_spec c 62); [subst; discriminate|reflexivity].
Qed.

Lemma br_scan_spaces w s :
  all_space w ->
  br_scan Between (w ++ s)
  = (fst (br_scan Between s), length w + snd (br_scan Between s)).
Proof.
  induction 1 as [|c w Hc _ IH]; simpl.
  - now destruct (br_scan Between s).
  - rewrite (br_step_space Between c Hc), IH. reflexivity.
Qed.

Lemma br_scan_tag_end (w : str) (slash : bool) (s : str) :
  all_space w ->
  br_scan SeenBr (w ++ (if slash then L "/" else []) ++ L ">" ++ s)
  = (S (fst (br_scan Between s)),
     length w + (if slash then 1 else 0) + 1 + snd (br_scan Between s)).
Proof.
  induction 1 as [|c w Hc _ IH].
  - destruct slash; simpl; destruct (br_scan Between s) as [k l]; reflexivity.
  - rewrite <- app_comm_cons. cbn [br_scan].
    rewrite (br_step_space SeenBr c Hc), IH. reflexivity.
Qed.

Lemma br_scan_cons q c s :
  br_scan q (c :: s)
  = match br_step q c with
    | Stop => (0, 0)
    | Skip => let (k, l) := br_scan Between s in (k, S l)
    | Go q' =>
        let (k, l) := br_scan q' s in
        match k with O => (0, 0) | _ => (k, S l) end
    | Close => let (k, l) := br_scan Between s in (S k, S l)
    end.
Proof. reflexivity. Qed.

Lemma br_scan_tag t s :
  is_br_tag t ->
  br_scan Between (t ++ s)
  = (S (fst (br_scan Between s)), length t + snd (br_scan Between s)).
Proof.
  intros [w slash Hw]. unfold br_tag. rewrite <- !app_assoc.
  change (L "<br" ++ w ++ (if slash then L "/" else []) ++ L ">" ++ s)
    with (60 :: 98 :: 114 :: w ++ (if slash then L "/" else []) ++ L ">" ++ s)%N.
  rewrite br_scan_cons. change (br_step Between 60%N) with (Go SeenLt). cbv iota.
  rewrite br_scan_cons. change (br_step SeenLt 98%N) with (Go SeenB). cbv iota.
  rewrite br_scan_cons. change (br_step SeenB 114%N) with (Go SeenBr). cbv iota.
  rewrite (br_scan_tag_end w slash s Hw). cbv iota beta.
  f_equal. rewrite !length_app. destruct slash; simpl; lia.
Qed.

(** A run of [k] tags is read as [k] rounds, and the scan goes on behind
    it. *)
Lemma br_scan_rounds k run post :
  br_rounds k run ->
  br_scan Between (run ++ post)
  = (k + fst (br_scan Between post), length run + snd (br_scan Between post)).
Proof.
  induction 1 as [|k w1 t w2 s Hw1 Ht Hw2 _ IH]; simpl.
  - now destruct (br_scan Between post).
  - rewrite <- !app_assoc.
    rewrite (br_scan_spaces w1 _ Hw1). rewrite (br_scan_tag t _ Ht).
    cbn [fst snd]. rewrite (br_scan_spaces w2 _ Hw2). cbn [fst snd].
    rewrite IH. cbn [fst snd]. rewrite !length_app. f_equal. lia.
Qed.

(** The end of a tag, read from behind [<br]. *)
Lemma br_count_tag_end s :
  1 <= br_count SeenBr s ->
  exists (w : str) (slash : bool) r,
    all_space w
    /\ s = w ++ (if slash then L "/" else []) ++ L ">" ++ r
    /\ br_count SeenBr s = S (br_count Between r).
Proof.
  induction s as [|c s IH]; simpl; [lia|].
  unfold br_step.
  destruct (is_space c) eqn:Hc.
  - intros H. destruct (IH H) as (w & slash & r & Hw & -> & Hn).
    exists (c :: w), slash, r. repeat split; auto. constructor; assumption.
  - destruct (N.eqb_spec c 47) as [->|_].
    + destruct s as [|d s']; simpl; [lia|]. unfold br_step.
      destruct (N.eqb_spec d 62) as [->|_]; [|lia].
      intros _. exists [], true, s'. repeat split. constructor.
    + destruct (N.eqb_spec c 62) as [->|_]; [|lia].
      intros _. exists [], false, s. repeat split. constructor.
Qed.

(** A tag, read from behind its [<]. *)
Lemma br_count_tag s :
  1 <= br_count SeenLt s ->
  exists t r,
    is_br_tag t /\ 60%N :: s = t ++ r
    /\ br_count SeenLt s = S (br_count Between r).
Proof.
  destruct s as [|c [|d s]]; simpl; try lia.
  - unfold br_step. destruct (c =? 98)%N; lia.
  - unfold br_step at 1.
    destruct (N.eqb_spec c 98) as [->|_]; [|lia].
    unfold br_step at 1.
    destruct (N.eqb_spec d 114) as [->|_]; [|lia].
    intros H. destruct (br_count_tag_end s H) as (w & slash & r & Hw & -> & Hn).
    exists (br_tag w slash), r. split; [now constructor|].
    split; [|exact Hn].
    unfold br_tag. rewrite <- !app_assoc. reflexivity.
Qed.

(** The first round of a scan that takes one. *)
Lemma br_count_first_round s :
  1 <= br_count Between s ->
  exists w t r,
    all_space w /\ is_br_tag t /\ s = w ++ t ++ r
    /\ br_count Between s = S (br_count Between r).
Proof.
  induction s as [|c s IH]; simpl; [lia|].
  unfold br_step.
  destruct (is_space c) eqn:Hc.
  - intros H. destruct (IH H) as (w & t & r & Hw & Ht & -> & Hn).
    exists (c :: w), t, r. repeat split; auto. constructor; assumption.
  - destruct (N.eqb_spec c 60) as [->|_]; [|lia].
    intros H. destruct (br_count_tag s H) as (t & r & Ht & Hs & Hn).
    exists [], t, r. repeat split; auto. constructor.
Qed.

(** A scan that takes [n] rounds or more starts with a run of [n] tags. *)
Lemma br_count_rounds n :
  forall s, n <= br_count Between s ->
            exists run post, br_rounds n run /\ s = run ++ post.
Proof.
  induction n as [|n IH]; intros s Hn.
  - exists [], s. split; [constructor|reflexivity].
  - destruct (br_count_first_round s ltac:(lia)) as (w & t & r & Hw & Ht & -> & Hc).
    destruct (IH r ltac:(lia)) as (run & post & Hrun & ->).
    exists (w ++ t ++ [] ++ run), post. split.
    + constructor; auto. constructor.
    + simpl. now rewrite <- !app_assoc.
Qed.

(** Behind a run that nothing can be added to, the scan takes nothing. *)
Lemma br_scan_stops post : ~ br_goes_on post -> br_scan Between post = (0, 0).
Proof.
  intros Hno. destruct post as [|c r]; [reflexivity|].
  simpl. unfold br_step.
  destruct (is_space c) eqn:Hc.
  - exfalso. apply Hno. left. exact Hc.
  - destruct (N.eqb_spec c 60) as [->|_]; [|reflexivity].
    pose proof (br_scan_count SeenLt r) as Hk.
    destruct (br_scan SeenLt r) as [[|k] l]; [reflexivity|]. simpl in Hk.
    exfalso. apply Hno. right.
    destruct (br_count_tag r ltac:(lia)) as (t & r' & Ht & Hs & _).
    now exists t, r'.
Qed.

Lemma br_rounds_length k run : br_rounds k run -> 4 * k <= length run.
Proof.
  induction 1 as [|k w1 t w2 s _ Ht _ _ IH]; simpl; [lia|].
  destruct Ht as [w slash _]. unfold br_tag. rewrite !length_app. simpl. lia.
Qed.

(** The second substitution at the start of a run of three tags or more
    that nothing can be added to: it writes two tags and goes on behind
    the run. *)
Lemma sub_br_run k run post :
  3 <= k -> br_rounds k run -> ~ br_goes_on post ->
  sub_br (run ++ post) = BR2 ++ sub_br post.
Proof.
  intros Hk Hrun Hpost.
  pose proof (br_rounds_length k run Hrun) as Hlen.
  assert (br_match (run ++ post) = Some (length run)) as Hm.
  { unfold br_match. rewrite (br_scan_rounds k run post Hrun).
    rewrite (br_scan_stops post Hpost). cbn [fst snd].
    rewrite !Nat.add_0_r.
    destruct (Nat.leb_spec 3 k); [reflexivity|lia]. }
  destruct run as [|c run']; [simpl in Hlen; lia|].
  simpl app in *. unfold sub_br. rewrite re_sub_cons, Hm. cbn [length].
  now rewrite skipn_app, skipn_all, Nat.sub_diag.
Qed.

(** Elsewhere it copies the character. *)
Lemma sub_br_copy c s :
  (forall k run post, 3 <= k -> br_rounds k run -> c :: s <> run ++ post) ->
  sub_br (c :: s) = c :: sub_br s.
Proof.
  intros Hno. unfold sub_br. rewrite re_sub_cons.
  destruct (br_match (c :: s)) as [n|] eqn:Hm; [|reflexivity].
  exfalso. apply br_match_some in Hm. destruct Hm as [H3 _].
  destruct (br_count_rounds 3 (c :: s) H3) as (run & post & Hrun & Hs).
  exact (Hno 3 run post (le_n 3) Hrun Hs).
Qed.

(** In the result no run of three tags is left, at any place. *)
Lemma sub_br_no_run s pre k run post :
  sub_br s = pre ++ run ++ post -> br_rounds k run -> k <= 2.
Proof.
  intros Hs Hrun.
  pose proof (br_count_sub_br_anywhere (length s) s (le_n _) (length pre)) as H.
  rewrite Hs, skipn_app, skipn_all, Nat.sub_diag in H. simpl in H.
  rewrite <- br_scan_count, (br_scan_rounds k run post Hrun) in H.
  simpl in H. lia.
Qed.

(** The first substitution: a run of white space gives one space, any
    other character is copied. *)
Lemma sub_ws_run run post :
  run <> [] -> all_space run -> space_first post = false ->
  sub_ws (run ++ post) = SP :: sub_ws post.
Proof.
  intros Hne Hrun Hpost.
  assert (ws_match (run ++ post) = Some (length run)) as Hm.
  { unfold ws_match. rewrite (span_run is_space run post Hrun).
    - destruct run; [congruence|reflexivity].
    - destruct post; [exact I|exact Hpost]. }
  destruct run as [|c run']; [congruence|].
  simpl app in *. unfold sub_ws. rewrite re_sub_cons, Hm. cbn [length].
  now rewrite skipn_app, skipn_all, Nat.sub_diag.
Qed.

Lemma sub_ws_copy c s : is_space c = false -> sub_ws (c :: s) = c :: sub_ws s.
Proof.
  intros Hc. unfold sub_ws. rewrite re_sub_cons.
  unfold ws_match. simpl. now rewrite Hc.
Qed.

Lemma br_count_spaces w s :
  all_space w -> br_count Between (w ++ s) = br_count Between s.
Proof.
  intros Hw. rewrite <- !br_scan_count, (br_scan_spaces w s Hw). reflexivity.
Qed.

(** A scan that takes rounds takes a run that nothing can be added to. *)
Lemma br_count_whole_run k :
  forall s, br_count Between s = S k ->
            exists run post,
              s = run ++ post /\ br_rounds (S k) run /\ ~ br_goes_on post.
Proof.
  induction k as [|k IH]; intros s Hs.
  - destruct (br_count_first_round s ltac:(lia)) as (w & t & r & Hw & Ht & -> & Hc).
    assert (br_count Between r = 0) as Hr by lia.
    pose proof (span_app is_space r) as Happ.
    pose proof (span_fst_all is_space r) as Hw2.
    pose proof (span_snd_head is_space r) as Hhead.
    destruct (span is_space r) as [w2 r'] eqn:E. simpl in Happ, Hw2, Hhead.
    exists (w ++ t ++ w2 ++ []), r'. split; [|split].
    + rewrite <- Happ, app_nil_r, <- !app_assoc. reflexivity.
    + constructor; auto. constructor.
    + rewrite <- Happ, (br_count_spaces w2 r' Hw2) in Hr.
      intros [Hsp|(t' & r'' & Ht' & ->)].
      * destruct r' as [|d r'']; [discriminate|].
        simpl in Hsp. rewrite (Hhead d r'' eq_refl) in Hsp. discriminate.
      * rewrite <- br_scan_count, (br_scan_tag t' r'' Ht') in Hr. discriminate.
  - destruct (br_count_first_round s ltac:(lia)) as (w & t & r & Hw & Ht & -> & Hc).
    destruct (IH r ltac:(lia)) as (run & post & -> & Hrun & Hpost).
    exists (w ++ t ++ [] ++ run), post. split; [|split; [|exact Hpost]].
    + simpl. now rewrite <- !app_assoc.
    + constructor; auto. constructor.
Qed.

Lemma br_rounds_count k run post :
  br_rounds k run -> k <= br_count Between (run ++ post).
Proof.
  intros H. rewrite <- br_scan_count, (br_scan_rounds k run post H). simpl. lia.
Qed.

(** The second substitution is that collapse, and nothing else is. *)
Lemma sub_br_collapsed n :
  forall s, length s <= n -> br_collapsed s (sub_br s).
Proof.
  induction n as [|n IH]; intros [|c s] Hlen; simpl in Hlen; try lia;
    try constructor.
  destruct (le_lt_dec 3 (br_count Between (c :: s))) as [H3|H2].
  - destruct (br_count Between (c :: s)) as [|k] eqn:Hk; [lia|].
    destruct (br_count_whole_run k (c :: s) Hk) as (run & post & Hs & Hrun & Hpost).
    rewrite Hs, (sub_br_run (S k) run post H3 Hrun Hpost).
    apply br_collapsed_run with (k := S k); auto.
    apply IH.
    pose proof (br_rounds_length _ _ Hrun).
    apply (f_equal (@length N)) in Hs. rewrite length_app in Hs. simpl in Hs. lia.
  - assert (forall k run post,
               3 <= k -> br_rounds k run -> c :: s <> run ++ post) as Hno.
    { intros k run post Hk Hrun Hs.
      pose proof (br_rounds_count k run post Hrun) as Hc.
      rewrite <- Hs in Hc. lia. }
    rewrite (sub_br_copy c s Hno). constructor; [exact Hno|].
    apply IH. lia.
Qed.

Lemma br_collapsed_sub_br s out : br_collapsed s out -> out = sub_br s.
Proof.
  induction 1 as [|k run post out Hk Hrun Hpost _ IH|c s out Hno _ IH].
  - reflexivity.
  - now rewrite (sub_br_run k run post Hk Hrun Hpost), IH.
  - now rewrite (sub_br_copy c s Hno), IH.
Qed.

(** The first substitution is the collapse of white space, and nothing
    else is. *)
Lemma sub_ws_collapsed n :
  forall s, length s <= n -> ws_collapsed s (sub_ws s).
Proof.
  induction n as [|n IH]; intros [|c s] Hlen; simpl in Hlen; try lia;
    try constructor.
  destruct (is_space c) eqn:Hc.
  - pose proof (span_app is_space (c :: s)) as Happ.
    pose proof (span_fst_all is_space (c :: s)) as Hrun.
    pose proof (span_snd_head is_space (c :: s)) as Hhead.
    destruct (span is_space (c :: s)) as [run post] eqn:E.
    simpl in Happ, Hrun, Hhead.
    assert (run <> []) as Hne.
    { simpl in E. rewrite Hc in E. destruct (span is_space s).
      injection E as <- _. discriminate. }
    assert (space_first post = false) as Hpost.
    { destruct post as [|d post']; [reflexivity|]. exact (Hhead d post' eq_refl). }
    rewrite <- Happ, (sub_ws_run run post Hne Hrun Hpost).
    constructor; auto. apply IH.
    apply (f_equal (@length N)) in Happ. rewrite length_app in Happ.
    simpl in Happ. destruct run; [congruence|]. simpl in Happ. lia.
  - rewrite (sub_ws_copy c s Hc). constructor; [exact Hc|]. apply IH. lia.
Qed.

Lemma ws_collapsed_sub_ws s out : ws_collapsed s out -> out = sub_ws s.
Proof.
  induction 1 as [|run post out Hne Hrun Hpost _ IH|c s out Hc _ IH].
  - reflexivity.
  - now rewrite (sub_ws_run run post Hne Hrun Hpost), IH.
  - now rewrite (sub_ws_copy c s Hc), IH.
Qed.

(** ** The restricted sanitizer *)

Section TgSanitizer.
Context {X : Externals}.

(** C8, as the code has it: the restricted sanitizer runs the two
    substitutions, one after the other, over what bleach returns.
    - The first turns every run of white space into one space and keeps
      every other character.
    - The second turns every run of three or more line-break tags into
      exactly two, [<br><br>], and keeps every other character; a run is
      taken with the white space before, between and behind its tags, so
      the space next to such a run is removed, not kept.
    - Nothing else is done: the two collapses determine the result.
    - In the result every white space is a lone space, and no run of
      three line-break tags is left at any place. *)
Theorem sanitize_for_tg_collapses html :
  let cleaned := bleach_clean TG_ALLOWED_TAGS TG_ALLOWED_ATTRS html in
  exists spaced,
    ws_collapsed cleaned spaced
    /\ br_collapsed spaced (sanitize_for_tg html)
    /\ (forall out, ws_collapsed cleaned out -> out = spaced)
    /\ (forall out, br_collapsed spaced out -> out = sanitize_for_tg html)
    /\ single_spaced false (sanitize_for_tg html) = true
    /\ (forall pre k run post,
          sanitize_for_tg html = pre ++ run ++ post -> br_rounds k run ->
          k <= 2).
Proof.
  cbv zeta. unfold sanitize_for_tg.
  set (cleaned := bleach_clean TG_ALLOWED_TAGS TG_ALLOWED_ATTRS html).
  exists (sub_ws cleaned).
  assert (single_spaced false (sub_ws cleaned) = true) as Hws
    by (apply (single_spaced_sub_ws (length cleaned)); [lia|discriminate]).
  split; [|split; [|split; [|split; [|split]]]].
  - apply (sub_ws_collapsed (length cleaned)). lia.
  - apply (sub_br_collapsed (length (sub_ws cleaned))). lia.
  - apply ws_collapsed_sub_ws.
  - apply br_collapsed_sub_br.
  - apply (single_spaced_sub_br (length (sub_ws cleaned))); [lia|exact Hws].
  - intros pre k run post. apply sub_br_no_run.
Qed.
End TgSanitizer.

(** C8 fails as stated: the white space before and behind a run of three
    line-break tags is not turned into one space, it is removed with the
    run.  bleach is the reference sanitizer, which returns this input as it
    is. *)
Lemma space_next_to_breaks_is_removed :
  let html := L "a <br><br><br> b" in
  @bleach_clean env_empty_feed TG_ALLOWED_TAGS TG_ALLOWED_ATTRS html = html
  /\ @sanitize_for_tg env_empty_feed html = L "a<br><br>b"
  /\ existsb is_space html = true
  /\ existsb is_space (@sanitize_for_tg env_empty_feed html) = false.
Proof. cbv zeta. repeat split; vm_compute; reflexivity. Qed.

(** ** Tag names under the two substitutions *)

(** Decides the comparisons on a character that the goal mentions. *)
Ltac char_cases :=
  repeat match goal with
         | |- context [(?a <=? ?b)%N] =>
             destruct (N.leb_spec a b); try lia
         | |- context [(?a =? ?b)%N] =>
             destruct (N.eqb_spec a b); try lia
         end;
  simpl; try reflexivity; try discriminate; try lia.

Lemma letter_not_space c : is_letter c = true -> is_space c = false.
Proof.
  unfold is_letter, is_space. intros H.
  assert (65 <= c <= 122)%N as Hc.
  { revert H. char_cases. }
  clear H. char_cases.
Qed.

Lemma name_char_not_space c : name_char c = true -> is_space c = false.
Proof.
  unfold name_char. destruct (is_space c); [discriminate|reflexivity].
Qed.

Lemma space_not_name_char c : is_space c = true -> name_char c = false.
Proof. unfold name_char. now intros ->. Qed.

Lemma space_not_letter c : is_space c = true -> is_letter c = false.
Proof.
  intros H. destruct (is_letter c) eqn:E; [|reflexivity].
  apply letter_not_space in E. congruence.
Qed.

Lemma space_not_lt c : is_space c = true -> (c =? 60)%N = false.
Proof.
  intros H. destruct (N.eqb_spec c 60) as [->|]; [discriminate|reflexivity].
Qed.

(** Where the first pattern matches, the text starts with white space;
    where the second does, with white space or [<]. *)
Lemma br_match_head c s n :
  br_match (c :: s) = Some n -> is_space c = true \/ c = 60%N.
Proof.
  intros H. apply br_match_some in H. destruct H as [H _].
  rewrite br_count_cons in H. unfold br_step in H.
  destruct (is_space c); [now left|].
  destruct (N.eqb_spec c 60); [now right|lia].
Qed.

Lemma span_fst_cons p c s :
  fst (span p (c :: s)) = if p c then c :: fst (span p s) else [].
Proof. simpl. destruct (p c); [|reflexivity]. now destruct (span p s). Qed.

Lemma name_from_sub_ws s : name_from (sub_ws s) = name_from s.
Proof.
  assert (forall r, fst (span name_char (sub_ws r)) = fst (span name_char r)) as Hrun.
  { induction r as [|c r IH]; [reflexivity|].
    unfold sub_ws in *. rewrite re_sub_cons.
    destruct (ws_match (c :: r)) as [[|k]|] eqn:Hm.
    - apply ws_match_some in Hm. lia.
    - apply ws_match_some in Hm. destruct Hm as (Hc & _). simpl in Hc.
      change ([SP] ++ re_sub ws_match [SP] (skipn k r))
        with (SP :: re_sub ws_match [SP] (skipn k r)).
      rewrite !span_fst_cons, (space_not_name_char c Hc). reflexivity.
    - rewrite !span_fst_cons, IH. reflexivity. }
  destruct s as [|c s]; [reflexivity|].
  unfold name_from. rewrite Hrun.
  unfold sub_ws. rewrite re_sub_cons.
  destruct (ws_match (c :: s)) as [[|k]|] eqn:Hm; try reflexivity.
  apply ws_match_some in Hm. destruct Hm as (Hc & _). simpl in Hc.
  simpl. now rewrite (space_not_letter c Hc).
Qed.

Lemma name_from_sub_br s : name_from (sub_br s) = name_from s.
Proof.
  assert (forall r, fst (span name_char (sub_br r)) = fst (span name_char r)) as Hrun.
  { induction r as [|c r IH]; [reflexivity|].
    unfold sub_br in *. rewrite re_sub_cons.
    destruct (br_match (c :: r)) as [[|k]|] eqn:Hm.
    - rewrite !span_fst_cons, IH. reflexivity.
    - apply br_match_head in Hm.
      change (BR2 ++ re_sub br_match BR2 (skipn k r))
        with (60%N :: (tl BR2 ++ re_sub br_match BR2 (skipn k r))).
      rewrite !span_fst_cons.
      destruct Hm as [Hc| ->]; [now rewrite (space_not_name_char c Hc)|reflexivity].
    - rewrite !span_fst_cons, IH. reflexivity. }
  destruct s as [|c s]; [reflexivity|].
  unfold name_from. rewrite Hrun.
  unfold sub_br. rewrite re_sub_cons.
  destruct (br_match (c :: s)) as [[|k]|] eqn:Hm; try reflexivity.
  apply br_match_head in Hm. simpl.
  destruct Hm as [Hc| ->]; [now rewrite (space_not_letter c Hc)|reflexivity].
Qed.

Lemma after_slash_other c s : c <> 47%N -> after_slash (c :: s) = c :: s.
Proof.
  intros Hne. destruct c as [|p]; [reflexivity|].
  do 6 (destruct p as [p|p|]; try reflexivity). congruence.
Qed.

Lemma space_not_slash c : is_space c = true -> c <> 47%N.
Proof. intros H ->. discriminate. Qed.

Lemma tag_name_at_sub_ws s : tag_name_at (sub_ws s) = tag_name_at s.
Proof.
  change (name_from (after_slash (sub_ws s)) = name_from (after_slash s)).
  destruct s as [|c s]; [reflexivity|].
  pose proof (name_from_sub_ws (c :: s)) as Hn.
  unfold sub_ws in *. rewrite re_sub_cons in *.
  destruct (ws_match (c :: s)) as [[|k]|] eqn:Hm.
  - apply ws_match_some in Hm. lia.
  - apply ws_match_some in Hm. destruct Hm as (Hc & _). simpl in Hc.
    change ([SP] ++ re_sub ws_match [SP] (skipn k s))
      with (SP :: re_sub ws_match [SP] (skipn k s)) in *.
    rewrite (after_slash_other SP) by discriminate.
    rewrite (after_slash_other c) by (now apply space_not_slash).
    exact Hn.
  - destruct (N.eqb_spec c 47) as [->|Hne].
    + apply name_from_sub_ws.
    + rewrite !after_slash_other by assumption. exact Hn.
Qed.

Lemma tag_name_at_sub_br s : tag_name_at (sub_br s) = tag_name_at s.
Proof.
  change (name_from (after_slash (sub_br s)) = name_from (after_slash s)).
  destruct s as [|c s]; [reflexivity|].
  pose proof (name_from_sub_br (c :: s)) as Hn.
  unfold sub_br in *. rewrite re_sub_cons in *.
  destruct (br_match (c :: s)) as [[|k]|] eqn:Hm.
  - destruct (N.eqb_spec c 47) as [->|Hne].
    + apply name_from_sub_br.
    + rewrite !after_slash_other by assumption. exact Hn.
  - apply br_match_head in Hm.
    change (BR2 ++ re_sub br_match BR2 (skipn k s))
      with (60%N :: (tl BR2 ++ re_sub br_match BR2 (skipn k s))) in *.
    rewrite (after_slash_other 60%N) by discriminate.
    rewrite (after_slash_other c)
      by (destruct Hm as [Hm| ->]; [now apply space_not_slash|discriminate]).
    exact Hn.
  - destruct (N.eqb_spec c 47) as [->|Hne].
    + apply name_from_sub_br.
    + rewrite !after_slash_other by assumption. exact Hn.
Qed.

Lemma tag_names_cons c s :
  tag_names (c :: s)
  = if (c =? 60)%N then
      match tag_name_at s with
      | [] => tag_names s
      | (_ :: _) as n => n :: tag_names s
      end
    else tag_names s.
Proof. reflexivity. Qed.

Lemma tag_names_skip_spaces k :
  forall s, Forall (fun c => is_space c = true) (firstn k s) ->
            tag_names s = tag_names (skipn k s).
Proof.
  induction k as [|k IH]; intros [|c s] H; try reflexivity.
  simpl firstn in H. inversion H as [|? ? Hc Hrest]; subst.
  rewrite tag_names_cons, (space_not_lt c Hc). simpl skipn. now apply IH.
Qed.

Lemma tag_names_skipn k : forall s, incl (tag_names (skipn k s)) (tag_names s).
Proof.
  induction k as [|k IH]; intros s; [apply incl_refl|].
  destruct s as [|c s]; [apply incl_refl|].
  simpl skipn. rewrite tag_names_cons.
  destruct (c =? 60)%N; [|apply IH].
  destruct (tag_name_at s); [apply IH|].
  apply incl_tl. apply IH.
Qed.

(** The first substitution changes no tag name. *)
Lemma tag_names_sub_ws n :
  forall s, length s <= n -> tag_names (sub_ws s) = tag_names s.
Proof.
  induction n as [|n IH]; intros [|c s] Hlen; simpl in Hlen; try lia;
    try reflexivity.
  pose proof (tag_name_at_sub_ws s) as Hat.
  unfold sub_ws in *. rewrite re_sub_cons.
  destruct (ws_match (c :: s)) as [[|k]|] eqn:Hm.
  - apply ws_match_some in Hm. lia.
  - apply ws_match_some in Hm. destruct Hm as (_ & _ & Hrun & _).
    change ([SP] ++ re_sub ws_match [SP] (skipn k s))
      with (SP :: re_sub ws_match [SP] (skipn k s)).
    rewrite tag_names_cons. change (SP =? 60)%N with false. cbv iota.
    rewrite (tag_names_skip_spaces (S k) (c :: s) Hrun). simpl skipn.
    apply IH. pose proof (length_skipn k s). lia.
  - rewrite !tag_names_cons, Hat, (IH s) by lia. reflexivity.
Qed.

(** The second substitution adds no tag name but [br]. *)
Lemma tag_names_sub_br n :
  forall s, length s <= n ->
            incl (tag_names (sub_br s)) (L "br" :: tag_names s).
Proof.
  induction n as [|n IH]; intros [|c s] Hlen; simpl in Hlen; try lia;
    try (intros x Hx; destruct Hx).
  pose proof (tag_name_at_sub_br s) as Hat.
  assert (incl (tag_names (c :: sub_br s)) (L "br" :: tag_names (c :: s))) as Hcopy.
  { rewrite !tag_names_cons, Hat.
    pose proof (IH s ltac:(lia)) as Hs.
    destruct (c =? 60)%N; [|exact Hs].
    destruct (tag_name_at s) as [|d nm]; [exact Hs|].
    intros x [<-|Hx]; [right; now left|].
    destruct (Hs x Hx) as [<-|Hin]; [now left|right; now right]. }
  unfold sub_br in *. rewrite re_sub_cons.
  destruct (br_match (c :: s)) as [[|k]|] eqn:Hm; try exact Hcopy.
  assert (tag_names (BR2 ++ re_sub br_match BR2 (skipn k s))
          = L "br" :: L "br" :: tag_names (re_sub br_match BR2 (skipn k s)))
    as -> by reflexivity.
  pose proof (IH (skipn k s) ltac:(pose proof (length_skipn k s); lia)) as Hs.
  pose proof (tag_names_skipn (S k) (c :: s)) as Hsuf. simpl skipn in Hsuf.
  intros x [<-|[<-|Hx]]; try (now left).
  destruct (Hs x Hx) as [<-|Hin]; [now left|right; now apply Hsuf].
Qed.

(** ** The allow-lists *)

Lemma node_induction (P : node -> Prop) :
  (forall s, P (Text s)) ->
  (forall name attrs ch, Forall P ch -> P (Tag name attrs ch)) ->
  forall n, P n.
Proof.
  intros HT HG. fix IH 1. intros [s|name attrs ch]; [apply HT|apply HG].
  induction ch as [|x ch IHch]; constructor; [apply IH|exact IHch].
Qed.

Lemma elements_filter_map (f : node -> bool) (d : node -> node) ch :
  Forall (fun x => incl (elements_of (d x)) (elements_of x)) ch ->
  incl (flat_map elements_of (filter f (map d ch))) (flat_map elements_of ch).
Proof.
  induction 1 as [|x ch Hx _ IH]; simpl; [apply incl_refl|].
  destruct (f (d x)); simpl.
  - apply incl_app; [apply incl_appl; exact Hx|apply incl_appr; exact IH].
  - apply incl_appr; exact IH.
Qed.

(** Taking out the images with a [data:] source adds no element. *)
Lemma elements_drop_data_imgs n :
  incl (elements_of (drop_data_imgs n)) (elements_of n).
Proof.
  induction n as [s|name attrs ch IH] using node_induction; [apply incl_refl|].
  simpl. intros x [<-|Hx]; [now left|right].
  exact (elements_filter_map _ _ ch IH x Hx).
Qed.

Section AllowLists.
Context {X : Externals}.

(** X29: what the program adds to bleach in the two sanitizers brings in
    no element.  Every tag name in the output of the restricted sanitizer
    is [br], which the restricted allow-list holds, or a tag name of the
    string that bleach returned; every element, with its attribute names,
    of the tree that the rich sanitizer serialises is an element of the
    tree parsed from the string that bleach returned.  The restricted
    allow-list handed to bleach holds one block-level element, [pre]. *)
Theorem sanitizers_add_no_element html :
  incl (tag_names (sanitize_for_tg html))
       (L "br" :: tag_names (bleach_clean TG_ALLOWED_TAGS TG_ALLOWED_ATTRS html))
  /\ incl (elements (sanitize_for_zen_soup html))
          (elements (bs_parse (bleach_clean ZEN_ALLOWED_TAGS ZEN_ALLOWED_ATTRS html)))
  /\ In (L "br") TG_ALLOWED_TAGS
  /\ (forall n, In n TG_ALLOWED_TAGS -> (In n BLOCK_LEVEL <-> n = L "pre"))
  /\ In (L "pre") TG_ALLOWED_TAGS.
Proof.
  split; [|split; [|split; [|split]]].
  - unfold sanitize_for_tg.
    set (cleaned := bleach_clean TG_ALLOWED_TAGS TG_ALLOWED_ATTRS html).
    intros n Hn.
    apply (tag_names_sub_br (length (sub_ws cleaned)) _ (le_n _)) in Hn.
    destruct Hn as [<-|Hn]; [now left|right].
    now rewrite (tag_names_sub_ws (length cleaned) _ (le_n _)) in Hn.
  - unfold sanitize_for_zen_soup, elements, drop_data_imgs_soup.
    intros x Hx.
    refine (elements_filter_map _ _ _ _ x Hx).
    apply Forall_forall. intros n _. apply elements_drop_data_imgs.
  - unfold TG_ALLOWED_TAGS. simpl. tauto.
  - intros n Hin. split.
    + intros Hb. unfold TG_ALLOWED_TAGS in Hin. simpl in Hin.
      repeat (destruct Hin as [<-|Hin]; [try reflexivity|]); try contradiction;
        exfalso; unfold BLOCK_LEVEL in Hb; simpl in Hb;
        repeat (destruct Hb as [Hb|Hb]; [discriminate|]); exact Hb.
    + intros ->. unfold BLOCK_LEVEL. simpl. tauto.
  - unfold TG_ALLOWED_TAGS. simpl. tauto.
Qed.
End AllowLists.

(** The reference sanitizer, given the restricted allow-list, lets a [pre]
    element through, and so does the restricted sanitizer. *)
Lemma restricted_keeps_pre :
  @sanitize_for_tg env_empty_feed (L "<pre>x</pre>") = L "<pre>x</pre>"
  /\ In (L "pre") (tag_names (@sanitize_for_tg env_empty_feed (L "<pre>x</pre>")))
  /\ In (L "pre") TG_ALLOWED_TAGS
  /\ In (L "pre") BLOCK_LEVEL.
Proof.
  split; [reflexivity|]. split; [vm_compute; tauto|].
  split; vm_compute; tauto.
Qed.

(** ** Running the two substitutions again *)

Lemma sub_br_fixed s :
  (forall i, br_match (skipn i s) = None) -> sub_br s = s.
Proof.
  induction s as [|c s IH]; intros H; [reflexivity|].
  unfold sub_br in *. rewrite re_sub_cons.
  pose proof (H 0) as H0. simpl skipn in H0. rewrite H0.
  f_equal. apply IH. intros i. exact (H (S i)).
Qed.

Lemma sub_ws_fixed s :
  forall b, single_spaced b s = true -> sub_ws s = s.
Proof.
  induction s as [|c s IH]; intros b H; [reflexivity|].
  unfold sub_ws in *. rewrite re_sub_cons. simpl in H.
  destruct (is_space c) eqn:Hc.
  - apply andb_true_iff in H. destruct H as [H Hs].
    apply andb_true_iff in H. destruct H as [Heq _].
    apply N.eqb_eq in Heq. subst c.
    assert (ws_match (SP :: s) = Some 1) as ->.
    { unfold ws_match. rewrite span_fst_cons. change (is_space SP) with true.
      cbv iota. destruct s as [|d s]; [reflexivity|].
      rewrite span_fst_cons. simpl in Hs.
      destruct (is_space d); [|reflexivity].
      rewrite andb_false_r in Hs. discriminate. }
    simpl. f_equal. exact (IH true Hs).
  - assert (ws_match (c :: s) = None) as ->.
    { unfold ws_match. now rewrite span_fst_cons, Hc. }
    f_equal. exact (IH false H).
Qed.

(** What the two substitutions return, they leave as it is. *)
Lemma substitutions_idempotent s :
  sub_br (sub_ws (sub_br (sub_ws s))) = sub_br (sub_ws s).
Proof.
  assert (single_spaced false (sub_br (sub_ws s)) = true) as Hws.
  { apply (single_spaced_sub_br (length (sub_ws s))); [lia|].
    apply (single_spaced_sub_ws (length s)); [lia|discriminate]. }
  rewrite (sub_ws_fixed _ false Hws).
  apply sub_br_fixed. intros i. apply br_match_none_iff.
  apply (br_count_sub_br_anywhere (length (sub_ws s))). lia.
Qed.

(** ** SHA-256 on the test vectors of FIPS 180 *)

Example sha256_empty :
  sha256_hexdigest []
  = L "e3b0c44298fc1c149afbf4c8996fb92427ae41e4649b934ca495991b7852b855".
Proof. vm_compute. reflexivity. Qed.

Example sha256_abc :
  sha256_hexdigest (L "abc")
  = L "ba7816bf8f01cfea414140de5dae2223b00361a396177a9cb410ff61f20015ad".
Proof. vm_compute. reflexivity. Qed.

(** * More properties of the program *)

(** ** Fetching and the endpoints *)

Section Endpoints.
Context {X : Externals}.
Variable cfg : Config.

Lemma cache_fresh_iff force now c :
  cache_fresh cfg force now c = true
  <-> force = false
      /\ (now - t c < inject_Z (CACHE_TTL cfg))%Q
      /\ zen c <> [] /\ tg c <> [].
Proof.
  unfold cache_fresh, Qlt_bool. rewrite !andb_true_iff, negb_true_iff.
  assert (forall (A : Type) (l : list A), truthy l = true <-> l <> []) as Htr
    by (intros A [|a l]; simpl; split; congruence).
  rewrite !Htr, negb_true_iff.
  split.
  - intros [[[Hf Hq] Hz] Hg]. repeat split; auto.
    destruct (Qlt_le_dec (now - t c) (inject_Z (CACHE_TTL cfg))) as [Hlt|Hle];
      [exact Hlt|].
    apply Qle_bool_iff in Hle. congruence.
  - intros (Hf & Hq & Hz & Hg). repeat split; auto.
    destruct (Qle_bool (inject_Z (CACHE_TTL cfg)) (now - t c)) eqn:E;
      [|reflexivity].
    apply Qle_bool_iff in E. exfalso. exact (Qlt_not_le _ _ Hq E).
Qed.

Lemma refresh_ok_documents force now clock st st' :
  maybe_refresh_cache cfg force now clock st = (st', Ok tt) ->
  truthy (zen (cache st')) = true /\ truthy (tg (cache st')) = true.
Proof.
  intros H. pose proof (refresh_cases cfg force now clock st) as Hc.
  cbv zeta in Hc. rewrite H in Hc. simpl in Hc.
  destruct Hc as [[Hf Heq]|(_ & _ & Hc)].
  - injection Heq as <-. unfold cache_fresh in Hf.
    rewrite !andb_true_iff in Hf. tauto.
  - destruct Hc as [(fp & z & g & _ & Hz & Hg & _ & ->)
                   |[(e & _ & He & _)|[(fp & e & _ & _ & He & _)
                   |(fp & z & e & _ & _ & _ & He & _)]]]; try discriminate.
    simpl. split; eapply etree_tostring_truthy; eassumption.
Qed.


(** X2: when the bytes fetched fail to parse with no entry, both feed
    endpoints answer with the status 500, not with the 502 that
    [fetch_source_feed] raises, and leave the cache as it was. *)
Theorem unparsable_feed_answers_500 now clock st r :
  cache_fresh cfg false now (cache st) = false ->
  requests_get (SOURCE_FEED_URL cfg) (fetches st) = Ok r ->
  bozo (feedparser_parse r) = true ->
  entries (feedparser_parse r) = [] ->
  snd (zen_feed cfg now clock st) = Raise (HTTPException 500)
  /\ snd (telegram_feed cfg now clock st) = Raise (HTTPException 500)
  /\ cache (fst (zen_feed cfg now clock st)) = cache st
  /\ cache (fst (telegram_feed cfg now clock st)) = cache st.
Proof.
  intros Hf Hr Hb He.
  pose proof (fetch_source_feed_cases cfg (fetches st)) as Hc.
  rewrite Hr in Hc. cbv zeta in Hc. rewrite Hb, He in Hc. simpl in Hc.
  unfold zen_feed, telegram_feed, maybe_refresh_cache. rewrite Hf, Hc.
  repeat split.
Qed.

(** X3: a feed endpoint that answers never answers with an empty body. *)
Theorem served_documents_not_empty now clock st b :
  snd (zen_feed cfg now clock st) = Ok b
  \/ snd (telegram_feed cfg now clock st) = Ok b ->
  b <> [].
Proof.
  unfold zen_feed, telegram_feed.
  destruct (maybe_refresh_cache cfg false now clock st) as [st' [[]|e]] eqn:Hm;
    simpl; [|intros [H|H]; discriminate].
  apply refresh_ok_documents in Hm. destruct Hm as [Hz Hg].
  intros [H|H]; injection H as <-; intros E; rewrite E in *; discriminate.
Qed.

(** X4: the two endpoints share one refresh.  When a request for the rich
    feed refreshed the cache, a request for the restricted feed less than
    the TTL later sends nothing upstream and answers with the document
    built from the same parsed feed. *)
Theorem endpoints_share_one_refresh now1 clock1 st0 st1 b now2 clock2 :
  zen_feed cfg now1 clock1 st0 = (st1, Ok b) ->
  fetches st1 = S (fetches st0) ->
  (now2 - now1 < inject_Z (CACHE_TTL cfg))%Q ->
  exists fp g,
    fetch_source_feed cfg (fetches st0) = Ok fp
    /\ build_zen_xml cfg clock1 fp = Ok b
    /\ build_tg_xml cfg clock1 fp = Ok g
    /\ telegram_feed cfg now2 clock2 st1 = (st1, Ok g).
Proof.
  unfold zen_feed. intros H Hn Hlt.
  destruct (maybe_refresh_cache cfg false now1 clock1 st0) as [st' [[]|e]] eqn:Hm;
    [|discriminate].
  injection H as -> <-.
  pose proof (refresh_cases cfg false now1 clock1 st0) as Hc.
  cbv zeta in Hc. rewrite Hm in Hc. simpl in Hc.
  destruct Hc as [[_ Heq]|(_ & _ & Hc)].
  - injection Heq as <-. lia.
  - destruct Hc as [(fp & z & g & Hfp & Hz & Hg & _ & Hcache)
                   |[(e & _ & He & _)|[(fp & e & _ & _ & He & _)
                   |(fp & z & e & _ & _ & _ & He & _)]]]; try discriminate.
    exists fp, g. rewrite Hcache. simpl. repeat split; auto.
    unfold telegram_feed, maybe_refresh_cache.
    assert (cache_fresh cfg false now2 (cache st1) = true) as ->.
    { apply cache_fresh_iff. rewrite Hcache. simpl.
      pose proof (etree_tostring_truthy _ _ Hz).
      pose proof (etree_tostring_truthy _ _ Hg).
      repeat split; auto; intros E; rewrite E in *; discriminate. }
    now rewrite Hcache.
Qed.

(** X5: a call sends a request upstream exactly when it is forced, or the
    cache is as old as the TTL or older, or one of the two documents is
    empty; otherwise it changes nothing.  It never sends more than one. *)
Theorem maybe_refresh_cache_fetches_iff force now clock st :
  let out := maybe_refresh_cache cfg force now clock st in
  (fetches (fst out) = S (fetches st)
   <-> force = true
       \/ (inject_Z (CACHE_TTL cfg) <= now - t (cache st))%Q
       \/ zen (cache st) = [] \/ tg (cache st) = [])
  /\ (fetches (fst out) <> S (fetches st) -> out = (st, Ok tt)).
Proof.
  cbv zeta.
  pose proof (cache_fresh_iff force now (cache st)) as Hiff.
  destruct (refresh_cases cfg force now clock st) as [[Hf ->]|(Hf & Hn & _)].
  - simpl. split; [|reflexivity]. apply Hiff in Hf.
    destruct Hf as (-> & Hq & Hz & Hg). split; [lia|].
    intros [H|[H|[H|H]]]; try congruence.
    exfalso. exact (Qlt_not_le _ _ Hq H).
  - split; [|congruence]. split; [intros _|intros _; exact Hn].
    destruct force; [now left|right].
    destruct (Qlt_le_dec (now - t (cache st)) (inject_Z (CACHE_TTL cfg)))
      as [Hlt|Hle]; [|now left]. right.
    destruct (zen (cache st)) as [|z0 zs] eqn:Ez; [now left|right].
    destruct (tg (cache st)) as [|g0 gs] eqn:Eg; [reflexivity|exfalso].
    assert (cache_fresh cfg false now (cache st) = true); [|congruence].
    apply Hiff. repeat split; auto; discriminate.
Qed.

(** X6: the time that [health] reports.  A call that sends a request
    and returns moves it to the time of that call; a call that finds the
    cache fresh and a call that raises leave it where it was. *)
Theorem health_updated_only_on_success force now clock st :
  let out := maybe_refresh_cache cfg force now clock st in
  (cache_fresh cfg force now (cache st) = false -> snd out = Ok tt ->
   h_updated (health cfg (fst out)) = now)
  /\ (cache_fresh cfg force now (cache st) = true ->
      h_updated (health cfg (fst out)) = h_updated (health cfg st))
  /\ (forall e, snd out = Raise e ->
                h_updated (health cfg (fst out)) = h_updated (health cfg st)).
Proof.
  cbv zeta. unfold health. simpl.
  destruct (refresh_cases cfg force now clock st) as [[Hf ->]|(Hf & Hn & Hc)].
  - repeat split; intros; try reflexivity; congruence.
  - destruct Hc as [(fp & z & g & _ & _ & _ & Hok & ->)
                   |[(e & _ & He & ->)|[(fp & e & _ & _ & He & ->)
                   |(fp & z & e & _ & _ & _ & He & ->)]]];
      repeat split; intros; try reflexivity; congruence.
Qed.

(** X7: no failure is remembered.  When the refresh of a cache as old as
    the TTL fails, any later call sends a request again. *)
Theorem failed_refresh_is_retried force now1 clock1 st e now2 clock2 :
  (inject_Z (CACHE_TTL cfg) <= now1 - t (cache st))%Q ->
  snd (maybe_refresh_cache cfg force now1 clock1 st) = Raise e ->
  (now1 <= now2)%Q ->
  fetches (fst (maybe_refresh_cache cfg false now2 clock2
                  (fst (maybe_refresh_cache cfg force now1 clock1 st))))
  = S (S (fetches st)).
Proof.
  intros Hold Hfail Hlater.
  assert (t (cache (fst (maybe_refresh_cache cfg force now1 clock1 st)))
          = t (cache st)
          /\ fetches (fst (maybe_refresh_cache cfg force now1 clock1 st))
             = S (fetches st)) as [Ht Hn].
  { destruct (refresh_cases cfg force now1 clock1 st) as [[_ Heq]|(_ & Hn & Hc)].
    - rewrite Heq in Hfail. discriminate.
    - split; [|exact Hn].
      destruct Hc as [(fp & z & g & _ & _ & _ & Hok & _)
                     |[(e' & _ & _ & ->)|[(fp & e' & _ & _ & _ & ->)
                     |(fp & z & e' & _ & _ & _ & _ & ->)]]]; try reflexivity.
      rewrite Hok in Hfail. discriminate. }
  set (st1 := fst (maybe_refresh_cache cfg force now1 clock1 st)) in *.
  destruct (refresh_cases cfg false now2 clock2 st1) as [[Hf _]|(_ & Hn2 & _)].
  - apply cache_fresh_iff in Hf. destruct Hf as (_ & Hq & _).
    rewrite Ht in Hq. exfalso. lra.
  - rewrite Hn2, Hn. reflexivity.
Qed.



End Endpoints.


Lemma unparsable_feed_answers_500_witness :
  snd (@zen_feed env_broken_feed sample_cfg 1000 sample_clock
         (mk_state old_cache 0)) = Raise (HTTPException 500).
Proof.
  apply (@unparsable_feed_answers_500 env_broken_feed sample_cfg 1000%Q
           sample_clock (mk_state old_cache 0) NOT_XML); reflexivity.
Defined.

Lemma served_documents_not_empty_witness : XML_DECLARATION <> [].
Proof.
  apply (@served_documents_not_empty env_empty_feed sample_cfg 1000%Q
           sample_clock (mk_state initial_cache 0) XML_DECLARATION).
  left. reflexivity.
Defined.

Lemma endpoints_share_one_refresh_witness :
  exists fp g,
    @fetch_source_feed env_empty_feed sample_cfg 0 = Ok fp
    /\ @build_zen_xml env_empty_feed sample_cfg sample_clock fp
       = Ok XML_DECLARATION
    /\ @build_tg_xml env_empty_feed sample_cfg sample_clock fp = Ok g
    /\ @telegram_feed env_empty_feed sample_cfg 1100 sample_clock st_first
       = (st_first, Ok g).
Proof.
  apply (@endpoints_share_one_refresh env_empty_feed sample_cfg 1000%Q
           sample_clock (mk_state initial_cache 0) st_first XML_DECLARATION
           1100%Q sample_clock); vm_compute; reflexivity.
Defined.

Lemma health_updated_only_on_success_witness :
  h_updated (health sample_cfg
               (fst (@maybe_refresh_cache env_empty_feed sample_cfg true 1000
                       sample_clock (mk_state old_cache 0)))) = 1000%Q
  /\ h_updated (health sample_cfg
                  (fst (@maybe_refresh_cache env_broken_feed sample_cfg true 1000
                          sample_clock (mk_state old_cache 0)))) = 0%Q.
Proof.
  split.
  - apply (proj1 (@health_updated_only_on_success env_empty_feed sample_cfg
                    true 1000%Q sample_clock (mk_state old_cache 0)));
      reflexivity.
  - apply (proj2 (proj2 (@health_updated_only_on_success env_broken_feed
                           sample_cfg true 1000%Q sample_clock
                           (mk_state old_cache 0))) (HTTPException 502)).
    reflexivity.
Defined.


Lemma failed_refresh_is_retried_witness :
  fetches
    (fst (@maybe_refresh_cache env_broken_feed sample_cfg false 1001 sample_clock
            (fst (@maybe_refresh_cache env_broken_feed sample_cfg false 1000
                    sample_clock (mk_state old_cache 0)))))
  = 2.
Proof.
  apply (@failed_refresh_is_retried env_broken_feed sample_cfg false 1000%Q
           sample_clock (mk_state old_cache 0) (HTTPException 502) 1001%Q
           sample_clock).
  - unfold Qle. simpl. lia.
  - reflexivity.
  - unfold Qle. simpl. lia.
Defined.

(** ** Items *)

Section Items.
Context {X : Externals}.
Variable cfg : Config.

Lemma zen_item_shape clock e :
  zen_item cfg clock e
  = Elem (L "item") [] None
      (item_head cfg clock e
       ++ [ Elem (qname NS_CONTENT (L "encoded")) []
              (Some (CDATA (sanitize_for_zen (fst (extract_main_html cfg e))))) [];
            Elem (qname NS_YANDEX (L "full-text")) []
              (Some (CDATA (sanitize_for_zen (fst (extract_main_html cfg e))))) [] ]
       ++ zen_media (pick_enclosure cfg e (snd (extract_main_html cfg e)))
       ++ zen_author e ++ zen_categories e
       ++ zen_description (sanitize_for_zen (fst (extract_main_html cfg e)))).
Proof. unfold zen_item. now destruct (extract_main_html cfg e). Qed.

Lemma tg_item_shape clock e :
  tg_item cfg clock e
  = Elem (L "item") [] None
      (item_head cfg clock e
       ++ [text_elem (L "description")
             (chunk_plain_text
                (get_text [LF]
                   (bs_parse (sanitize_for_tg (fst (extract_main_html cfg e)))))
                (TELEGRAM_MAX cfg))]).
Proof. unfold tg_item. now destruct (extract_main_html cfg e). Qed.

Lemma texts_of_app tag a t attrs b c :
  texts_of tag (Elem a attrs t (b ++ c))
  = texts_of tag (Elem a attrs t b) ++ texts_of tag (Elem a attrs t c).
Proof. unfold texts_of. simpl. apply flat_map_app. Qed.

Lemma texts_of_none tag a t attrs l :
  Forall (fun x => xml_tag x <> tag) l -> texts_of tag (Elem a attrs t l) = [].
Proof.
  unfold texts_of. simpl. induction 1 as [|x l Hx _ IH]; [reflexivity|].
  simpl. rewrite IH.
  destruct (str_eqb (xml_tag x) tag) eqn:E; [|reflexivity].
  apply str_eqb_eq in E. contradiction.
Qed.

(** The tags of the children that follow the two full-text fields. *)
Lemma zen_tail_tags enc e html x :
  In x (zen_media enc ++ zen_author e ++ zen_categories e
        ++ zen_description html) ->
  xml_tag x = L "enclosure" \/ xml_tag x = qname NS_MEDIA (L "content")
  \/ xml_tag x = L "author" \/ xml_tag x = L "category"
  \/ xml_tag x = L "description".
Proof.
  intros H. repeat (apply in_app_or in H; destruct H as [H|H]).
  - destruct enc as [[u m]|]; simpl in H; [|contradiction].
    destruct H as [<-|[<-|[]]]; auto.
  - unfold zen_author in H. destruct (e_author e) as [a|]; [|contradiction].
    destruct (truthy a); [|contradiction].
    destruct H as [<-|[]]; auto.
  - unfold zen_categories in H. apply in_flat_map in H.
    destruct H as ([tm|] & _ & H); [|contradiction].
    destruct (truthy tm); [|contradiction].
    destruct H as [<-|[]]; auto 6.
  - unfold zen_description in H.
    destruct (find (L "p") (bs_parse html)); [|contradiction].
    destruct H as [<-|[]]; auto 6.
Qed.

Lemma texts_of_head tag a attrs t l rest :
  Forall (fun x => xml_tag x <> tag) rest ->
  texts_of tag (Elem a attrs t (l ++ rest)) = texts_of tag (Elem a attrs t l).
Proof.
  intros H. rewrite texts_of_app, (texts_of_none tag _ _ _ rest H).
  apply app_nil_r.
Qed.

(** A tag of the item head is carried by the head alone. *)
Lemma zen_item_head_texts tag clock e :
  ~ In tag [L "description"; L "enclosure"; qname NS_MEDIA (L "content");
            L "author"; L "category"; qname NS_CONTENT (L "encoded");
            qname NS_YANDEX (L "full-text")] ->
  texts_of tag (zen_item cfg clock e)
  = texts_of tag (Elem (L "item") [] None (item_head cfg clock e)).
Proof.
  intros Hn. rewrite zen_item_shape. apply texts_of_head.
  apply Forall_app. split.
  - constructor; [intros <-; apply Hn; do 5 right; left; reflexivity|].
    constructor; [intros <-; apply Hn; do 6 right; left; reflexivity|constructor].
  - apply Forall_forall. intros x Hx. apply zen_tail_tags in Hx.
    intros <-. apply Hn.
    destruct Hx as [->|[->|[->|[->| ->]]]].
    + do 1 right; left; reflexivity.
    + do 2 right; left; reflexivity.
    + do 3 right; left; reflexivity.
    + do 4 right; left; reflexivity.
    + left; reflexivity.
Qed.

Lemma tg_item_head_texts tag clock e :
  tag <> L "description" ->
  texts_of tag (tg_item cfg clock e)
  = texts_of tag (Elem (L "item") [] None (item_head cfg clock e)).
Proof.
  intros Hn. rewrite tg_item_shape. apply texts_of_head.
  constructor; [intros <-; apply Hn; reflexivity|constructor].
Qed.

Lemma safe_pubdate_parsed clock e :
  safe_pubdate clock e
  = match parsed_date e with Some d => d | None => clock end.
Proof.
  unfold safe_pubdate, parsed_date, usable_date.
  destruct (e_published_parsed e) as [[|y v]|];
    destruct (e_updated_parsed e) as [[|y' v']|]; simpl truthy; cbv iota;
    try change (datetime_of []) with (@None datetime); cbv iota;
    try reflexivity;
    repeat match goal with
           | |- context [datetime_of ?x] => destruct (datetime_of x)
           end; reflexivity.
Qed.

(** X8: the two feeds agree on the title, the link and the guid of every
    item, and on the pubDate of every entry that carries a usable date.
    Each builder reads the clock on its own ([clock1] in the rich feed,
    [clock2] in the restricted one), so the pubDate of an entry without
    usable date is, in each feed, the time at which that feed was built. *)
Theorem feeds_agree_on_items clock1 clock2 e :
  let z := zen_item cfg clock1 e in
  let g := tg_item cfg clock2 e in
  texts_of (L "guid") z = [Plain (guid_for e)]
  /\ texts_of (L "guid") g = [Plain (guid_for e)]
  /\ texts_of (L "title") z = [Plain (get_or (e_title e) UNTITLED)]
  /\ texts_of (L "title") g = [Plain (get_or (e_title e) UNTITLED)]
  /\ texts_of (L "link") z = [Plain (get_or (e_link e) (FEED_LINK cfg))]
  /\ texts_of (L "link") g = [Plain (get_or (e_link e) (FEED_LINK cfg))]
  /\ texts_of (L "pubDate") z
     = [Plain (dt_to_rfc822
                 (match parsed_date e with Some d => d | None => clock1 end))]
  /\ texts_of (L "pubDate") g
     = [Plain (dt_to_rfc822
                 (match parsed_date e with Some d => d | None => clock2 end))].
Proof.
  cbv zeta.
  assert (forall tag clock, In tag [L "guid"; L "title"; L "link"; L "pubDate"] ->
            texts_of tag (zen_item cfg clock e)
            = texts_of tag (Elem (L "item") [] None (item_head cfg clock e))
            /\ texts_of tag (tg_item cfg clock e)
               = texts_of tag (Elem (L "item") [] None (item_head cfg clock e)))
    as Hhead.
  { intros tag clock Hin. split.
    - apply zen_item_head_texts. intros Hbad. simpl in Hin, Hbad.
      repeat (destruct Hin as [<-|Hin]; [tauto||
        (repeat (destruct Hbad as [Hbad|Hbad]; [discriminate|]); exact Hbad)|]).
      exact Hin.
    - apply tg_item_head_texts. intros ->. simpl in Hin.
      repeat (destruct Hin as [Hin|Hin]; [discriminate|]). exact Hin. }
  rewrite (proj1 (Hhead (L "guid") clock1 ltac:(simpl; tauto))).
  rewrite (proj2 (Hhead (L "guid") clock2 ltac:(simpl; tauto))).
  rewrite (proj1 (Hhead (L "title") clock1 ltac:(simpl; tauto))).
  rewrite (proj2 (Hhead (L "title") clock2 ltac:(simpl; tauto))).
  rewrite (proj1 (Hhead (L "link") clock1 ltac:(simpl; tauto))).
  rewrite (proj2 (Hhead (L "link") clock2 ltac:(simpl; tauto))).
  rewrite (proj1 (Hhead (L "pubDate") clock1 ltac:(simpl; tauto))).
  rewrite (proj2 (Hhead (L "pubDate") clock2 ltac:(simpl; tauto))).
  rewrite <- !safe_pubdate_parsed.
  repeat split; reflexivity.
Qed.
End Items.

Section ItemsOfFeeds.
Context {X : Externals}.
Variable cfg : Config.

Lemma filter_map_all {A B} (f : B -> bool) (g : A -> B) l :
  (forall x, f (g x) = true) -> filter f (map g l) = map g l.
Proof.
  intros H. induction l as [|a l IH]; [reflexivity|].
  simpl. now rewrite H, IH.
Qed.

(** X9: either document has one item for every entry of the parsed feed,
    in the order of the feed, and no other item. *)
Theorem one_item_per_entry clock fp :
  items_of (zen_tree cfg clock fp) = map (zen_item cfg clock) (entries fp)
  /\ items_of (tg_tree cfg clock fp) = map (tg_item cfg clock) (entries fp)
  /\ length (items_of (zen_tree cfg clock fp)) = length (entries fp)
  /\ length (items_of (tg_tree cfg clock fp)) = length (entries fp).
Proof.
  assert (items_of (zen_tree cfg clock fp)
          = map (zen_item cfg clock) (entries fp)) as Hz.
  { unfold items_of, zen_tree. cbn [xml_children flat_map].
    rewrite app_nil_r, filter_app.
    rewrite filter_map_all by (intros e; rewrite zen_item_shape; reflexivity).
    reflexivity. }
  assert (items_of (tg_tree cfg clock fp)
          = map (tg_item cfg clock) (entries fp)) as Hg.
  { unfold items_of, tg_tree. cbn [xml_children flat_map].
    rewrite app_nil_r, filter_app.
    rewrite filter_map_all by (intros e; rewrite tg_item_shape; reflexivity).
    reflexivity. }
  rewrite Hz, Hg, !length_map. auto.
Qed.

Lemma category_texts (l : list (option str)) :
  let cats :=
    flat_map (fun term =>
                match term with
                | Some t => if truthy t then [text_elem (L "category") t] else []
                | None => []
                end) l in
  length (texts_of (L "category") (Elem (L "item") [] None cats)) <= length l
  /\ Forall (fun tx => xtext_str tx <> [])
            (texts_of (L "category") (Elem (L "item") [] None cats)).
Proof.
  cbv zeta. induction l as [|tm l [IH1 IH2]]; [split; [apply le_n|constructor]|].
  cbn [flat_map]. rewrite texts_of_app, length_app.
  destruct tm as [[|c tm]|].
  - split; [simpl length in *; lia|exact IH2].
  - change (texts_of (L "category")
              (Elem (L "item") [] None
                 (if truthy (c :: tm) then [text_elem (L "category") (c :: tm)]
                  else [])))
      with [Plain (c :: tm)].
    split; [simpl length in *; lia|constructor; [discriminate|exact IH2]].
  - split; [simpl length in *; lia|exact IH2].
Qed.

(** X10: an item of the rich feed has at most ten categories, none of
    them empty. *)
Theorem at_most_ten_categories clock e :
  length (texts_of (L "category") (zen_item cfg clock e)) <= 10
  /\ Forall (fun tx => xtext_str tx <> [])
            (texts_of (L "category") (zen_item cfg clock e)).
Proof.
  assert (texts_of (L "category") (zen_item cfg clock e)
          = texts_of (L "category") (Elem (L "item") [] None (zen_categories e)))
    as ->.
  { rewrite zen_item_shape.
    rewrite (texts_of_app _ _ _ _ (item_head cfg clock e)).
    rewrite (texts_of_none _ _ _ _ (item_head cfg clock e))
      by (repeat constructor; discriminate).
    rewrite (texts_of_app _ _ _ _ [_; _]).
    rewrite (texts_of_none _ _ _ _ [_; _]) by (repeat constructor; discriminate).
    rewrite (texts_of_app _ _ _ _ (zen_media _)).
    rewrite (texts_of_none _ _ _ _ (zen_media _))
      by (destruct (pick_enclosure cfg e _) as [[u m]|];
          repeat constructor; discriminate).
    rewrite (texts_of_app _ _ _ _ (zen_author e)).
    rewrite (texts_of_none _ _ _ _ (zen_author e))
      by (unfold zen_author; destruct (e_author e) as [a|];
          [destruct (truthy a)|]; repeat constructor; discriminate).
    rewrite (texts_of_app _ _ _ _ (zen_categories e)).
    rewrite (texts_of_none _ _ _ _ (zen_description _))
      by (unfold zen_description;
          destruct (find (L "p") (bs_parse _));
          repeat constructor; discriminate).
    now rewrite app_nil_r. }
  unfold zen_categories.
  pose proof (firstn_le_length 10
                (match e_tags e with Some ts => ts | None => [] end)) as Hlen.
  destruct (category_texts
              (firstn 10 (match e_tags e with Some ts => ts | None => [] end)))
    as [H1 H2].
  split; [lia|exact H2].
Qed.

(** X11: the short description of an item of the rich feed has at most
    500 characters. *)
Theorem zen_description_at_most_500 clock e :
  Forall (fun tx => length (xtext_str tx) <= 500)
         (texts_of (L "description") (zen_item cfg clock e)).
Proof.
  rewrite zen_item_shape.
  rewrite (texts_of_app _ _ _ _ (item_head cfg clock e)).
  rewrite (texts_of_none _ _ _ _ (item_head cfg clock e))
    by (repeat constructor; discriminate).
  rewrite (texts_of_app _ _ _ _ [_; _]).
  rewrite (texts_of_none _ _ _ _ [_; _]) by (repeat constructor; discriminate).
  rewrite (texts_of_app _ _ _ _ (zen_media _)).
  rewrite (texts_of_none _ _ _ _ (zen_media _))
    by (destruct (pick_enclosure cfg e _) as [[u m]|];
        repeat constructor; discriminate).
  rewrite (texts_of_app _ _ _ _ (zen_author e)).
  rewrite (texts_of_none _ _ _ _ (zen_author e))
    by (unfold zen_author; destruct (e_author e) as [a|];
        [destruct (truthy a)|]; repeat constructor; discriminate).
  rewrite (texts_of_app _ _ _ _ (zen_categories e)).
  rewrite (texts_of_none _ _ _ _ (zen_categories e)).
  - rewrite app_nil_l. unfold zen_description.
    destruct (find (L "p") (bs_parse _)) as [p|]; [|constructor].
    change (texts_of (L "description")
              (Elem (L "item") [] None
                 [text_elem (L "description") (firstn 500 (get_text [SP] [p]))]))
      with [Plain (firstn 500 (get_text [SP] [p]))].
    constructor; [|constructor].
    unfold xtext_str. apply firstn_le_length.
  - apply Forall_forall. intros x Hx. unfold zen_categories in Hx.
    apply in_flat_map in Hx. destruct Hx as ([tm|] & _ & Hx); [|destruct Hx].
    destruct (truthy tm); [|destruct Hx].
    destruct Hx as [<-|[]]. discriminate.
Qed.

Lemma chunk_plain_text_length s m :
  (1 <= m)%Z -> (Z.of_nat (length (chunk_plain_text s m)) <= m)%Z.
Proof.
  intros Hm. unfold chunk_plain_text.
  destruct (Z.of_nat (length s) <=? m)%Z eqn:Hle; [now apply Z.leb_le|].
  rewrite (slice_to_firstn s (m - 1)%Z) by lia.
  pose proof (firstn_le_length (Z.to_nat (m - 1)) s).
  pose proof (strip_length (sub_tail (firstn (Z.to_nat (m - 1)) s))).
  pose proof (sub_tail_length (firstn (Z.to_nat (m - 1)) s)).
  rewrite length_app. simpl. lia.
Qed.

(** X12: with a maximum of at least one character, the description of an
    item of the restricted feed is the only one and has at most
    [TELEGRAM_MAX] characters. *)
Theorem tg_description_within_maximum clock e :
  (1 <= TELEGRAM_MAX cfg)%Z ->
  exists d, texts_of (L "description") (tg_item cfg clock e) = [Plain d]
            /\ (Z.of_nat (length d) <= TELEGRAM_MAX cfg)%Z.
Proof.
  intros Hm. rewrite tg_item_shape.
  rewrite texts_of_app.
  rewrite (texts_of_none _ _ _ _ (item_head cfg clock e))
    by (repeat constructor; discriminate).
  eexists. split; [reflexivity|]. now apply chunk_plain_text_length.
Qed.
End ItemsOfFeeds.

Lemma tg_description_within_maximum_witness :
  exists d,
    texts_of (L "description")
      (@tg_item env_empty_feed sample_cfg sample_clock (bare_entry (L "hello")))
    = [Plain d]
    /\ (Z.of_nat (length d) <= 4096)%Z.
Proof.
  apply (@tg_description_within_maximum env_empty_feed sample_cfg sample_clock
           (bare_entry (L "hello"))).
  simpl. lia.
Defined.

(** ** Media *)

Section Media.
Context {X : Externals}.
Variable cfg : Config.

Lemma get_or_not_empty x y : y <> [] -> get_or x y <> [].
Proof.
  intros Hy. destruct x as [[|c s]|]; simpl; auto. discriminate.
Qed.

Lemma mime_of_not_empty declared url : mime_of declared url <> [].
Proof.
  unfold mime_of. apply get_or_not_empty, get_or_not_empty. discriminate.
Qed.

(** X13: the MIME type of a selected media asset is never empty: it is
    the declared type, else the guessed one, else [image/jpeg]. *)
Theorem pick_enclosure_mime_not_empty e img u m :
  pick_enclosure cfg e img = Some (u, m) -> m <> [].
Proof.
  unfold pick_enclosure.
  assert (forall r,
             match img with
             | Some i => if truthy i then Some (i, mime_of None i) else None
             | None => None
             end = Some r -> snd r <> []) as Hhtml.
  { intros r. destruct img as [i|]; [|discriminate].
    destruct (truthy i); [|discriminate].
    intros H. injection H as <-. exact (mime_of_not_empty None i). }
  destruct (e_enclosures e) as [[|enc rest]|]; try (intros H; exact (Hhtml _ H)).
  destruct (truthy (get_or (enc_href enc) (get_dflt (enc_url enc))));
    [|intros H; exact (Hhtml _ H)].
  intros H. injection H as _ <-. exact (mime_of_not_empty (enc_type enc) _).
Qed.

(** X14: no media is selected exactly when the first enclosure, if there
    is one, has neither [href] nor [url], and the body has no first
    image. *)
Theorem pick_enclosure_none_iff e img :
  pick_enclosure cfg e img = None
  <-> present img = None
      /\ match e_enclosures e with
         | Some (enc :: _) =>
             present (enc_href enc) = None /\ present (enc_url enc) = None
         | _ => True
         end.
Proof.
  unfold pick_enclosure.
  assert (match img with
          | Some i => if truthy i then Some (i, mime_of None i) else None
          | None => None
          end = None <-> present img = None) as Hhtml.
  { destruct img as [[|c i]|]; simpl; split; congruence. }
  destruct (e_enclosures e) as [[|enc rest]|]; try tauto.
  destruct (enc_href enc) as [[|c h]|], (enc_url enc) as [[|d u]|]; simpl;
    try tauto; split; try discriminate; intros [_ [H1 H2]]; discriminate.
Qed.

(** X15: only the first enclosure counts.  Entries with the same link and
    the same first enclosure get the same media, whatever enclosures
    follow. *)
Theorem pick_enclosure_first_only e e' enc rest rest' img :
  e_link e = e_link e' ->
  e_enclosures e = Some (enc :: rest) ->
  e_enclosures e' = Some (enc :: rest') ->
  pick_enclosure cfg e img = pick_enclosure cfg e' img.
Proof.
  intros Hl He He'. unfold pick_enclosure, entry_base.
  now rewrite He, He', Hl.
Qed.
End Media.

Lemma pick_enclosure_mime_not_empty_witness : L "image/jpeg" <> [].
Proof.
  apply (@pick_enclosure_mime_not_empty env_empty_feed sample_cfg
           (entry_with_enclosures (L "https://example.org/a")
              [mk_enclosure (Some (L "https://example.org/a.bin")) None None])
           None (L "https://example.org/a.bin") (L "image/jpeg")).
  reflexivity.
Defined.

Lemma pick_enclosure_first_only_witness :
  @pick_enclosure env_empty_feed sample_cfg
    (entry_with_enclosures (L "https://example.org/a")
       [mk_enclosure None None None;
        mk_enclosure (Some (L "https://example.org/b.mp3")) None None])
    None
  = @pick_enclosure env_empty_feed sample_cfg
      (entry_with_enclosures (L "https://example.org/a")
         [mk_enclosure None None None])
      None.
Proof.
  apply (@pick_enclosure_first_only env_empty_feed sample_cfg _ _
           (mk_enclosure None None None)
           [mk_enclosure (Some (L "https://example.org/b.mp3")) None None] []);
    reflexivity.
Defined.

(** ** Dates *)

Lemma datetime_of_valid v d : datetime_of v = Some d -> valid_datetime d = true.
Proof.
  unfold datetime_of.
  destruct (firstn 6 v) as [|y [|m [|dd rest]]]; try discriminate.
  match goal with
  | |- (if ?c then _ else _) = _ -> _ => destruct c eqn:Hc; [|discriminate]
  end.
  intros H. injection H as <-. exact Hc.
Qed.

(** X16: the publication date of an item is always a date whose fields are
    in range, when the clock gives one: a tuple out of range never gets
    through. *)
Theorem safe_pubdate_valid clock e :
  valid_datetime clock = true -> valid_datetime (safe_pubdate clock e) = true.
Proof.
  intros Hc. unfold safe_pubdate.
  assert (forall val other,
             valid_datetime other = true ->
             valid_datetime
               match val with
               | Some v =>
                   if truthy v
                   then match datetime_of v with Some dt => dt | None => other end
                   else other
               | None => other
               end = true) as Htry.
  { intros [v|] other Ho; [|exact Ho].
    destruct (truthy v); [|exact Ho].
    destruct (datetime_of v) as [d|] eqn:Hd; [|exact Ho].
    exact (datetime_of_valid v d Hd). }
  apply Htry, Htry, Hc.
Qed.

(** X17: the published date goes before the updated date, and a published
    date that is absent or out of range gives way to the updated date. *)
Theorem safe_pubdate_precedence clock e :
  (forall v d, e_published_parsed e = Some v -> datetime_of v = Some d ->
               safe_pubdate clock e = d)
  /\ (forall u d,
        (e_published_parsed e = None
         \/ exists v, e_published_parsed e = Some v /\ datetime_of v = None) ->
        e_updated_parsed e = Some u -> datetime_of u = Some d ->
        safe_pubdate clock e = d).
Proof.
  assert (forall v d, datetime_of v = Some d -> truthy v = true) as Htr.
  { intros [|x v] d H; [discriminate|reflexivity]. }
  unfold safe_pubdate. split.
  - intros v d Hp Hd. now rewrite Hp, (Htr v d Hd), Hd.
  - intros u d Hp Hu Hd. rewrite Hu, (Htr u d Hd), Hd.
    destruct Hp as [->|(v & -> & Hv)]; [reflexivity|].
    rewrite Hv. now destruct (truthy v).
Qed.

Lemma safe_pubdate_valid_witness :
  valid_datetime
    (safe_pubdate sample_clock
       (entry_with_dates [2023; 13; 1; 0; 0; 0; 0; 0; 0]%Z
                         [2023; 2; 28; 23; 59; 59; 0; 0; 0]%Z)) = true.
Proof. apply safe_pubdate_valid. reflexivity. Defined.

(** ** Extraction *)

Lemma attr_update_keys key f attrs :
  map fst (attr_update key f attrs) = map fst attrs.
Proof.
  induction attrs as [|[k v] rest IH]; [reflexivity|].
  simpl. destruct (str_eqb k key); simpl; [reflexivity|now rewrite IH].
Qed.

Lemma rewrite_attr_keeps nm key f n :
  strings_of (rewrite_attr nm key f n) = strings_of n
  /\ elements_of (rewrite_attr nm key f n) = elements_of n.
Proof.
  induction n as [s|name attrs ch IH] using node_induction; [now split|].
  simpl.
  assert (flat_map strings_of (map (rewrite_attr nm key f) ch)
          = flat_map strings_of ch
          /\ flat_map elements_of (map (rewrite_attr nm key f) ch)
             = flat_map elements_of ch) as [Hs He].
  { induction IH as [|x ch [Hx1 Hx2] _ [IH1 IH2]]; [now split|].
    simpl. now rewrite Hx1, Hx2, IH1, IH2. }
  split; [exact Hs|].
  rewrite He. f_equal. f_equal.
  destruct (str_eqb name nm); [apply attr_update_keys|reflexivity].
Qed.

Lemma rewrite_attr_keeps_soup nm key f (d : soup) :
  flat_map strings_of (map (rewrite_attr nm key f) d) = flat_map strings_of d
  /\ elements (map (rewrite_attr nm key f) d) = elements d.
Proof.
  unfold elements. induction d as [|x d [IH1 IH2]]; [now split|].
  simpl. destruct (rewrite_attr_keeps nm key f x) as [-> ->].
  now rewrite IH1, IH2.
Qed.

Lemma first_html_content_none cs :
  Forall (fun c => starts_with (L "text/html") (get_dflt (c_type c)) = false) cs ->
  first_html_content cs = [].
Proof.
  induction 1 as [|c cs Hc _ IH]; [reflexivity|].
  cbn [first_html_content]. now rewrite Hc.
Qed.

Section ExtractionProperties.
Context {X : Externals}.
Variable cfg : Config.

Lemma extract_main_html_steps e :
  extract_main_html cfg e = (bs_str (absolutized_soup cfg e), first_image cfg e).
Proof. reflexivity. Qed.

(** X18: making the links absolute changes no text and adds or removes no
    element or attribute: the tree that [extract_main_html] serialises has
    the strings, the elements and the attribute names of the tree parsed
    from the chosen markup. *)
Theorem absolutization_keeps_text_and_elements e :
  fst (extract_main_html cfg e) = bs_str (absolutized_soup cfg e)
  /\ flat_map strings_of (absolutized_soup cfg e)
     = flat_map strings_of (bs_parse (main_html e))
  /\ elements (absolutized_soup cfg e) = elements (bs_parse (main_html e))
  /\ (forall sep, get_text sep (absolutized_soup cfg e)
                  = get_text sep (bs_parse (main_html e))).
Proof.
  unfold absolutized_soup.
  set (base := entry_base cfg e).
  set (d := bs_parse (main_html e)).
  destruct (rewrite_attr_keeps_soup (L "a") (L "href")
              (fun v => absolutize_url v base) d) as [H1 H2].
  destruct (rewrite_attr_keeps_soup (L "img") (L "src")
              (fun v => absolutize_url v base)
              (map (rewrite_attr (L "a") (L "href")
                      (fun v => absolutize_url v base)) d)) as [H3 H4].
  repeat split.
  - now rewrite H3, H1.
  - now rewrite H4, H2.
  - intros sep. unfold get_text. now rewrite H3, H1.
Qed.
End ExtractionProperties.

Lemma first_html_content_first pre c rest :
  Forall (fun c => starts_with (L "text/html") (get_dflt (c_type c)) = false) pre ->
  starts_with (L "text/html") (get_dflt (c_type c)) = true ->
  first_html_content (pre ++ c :: rest) = get_or (c_value c) [].
Proof.
  induction 1 as [|d pre Hd _ IH]; intros Hc; cbn [first_html_content app].
  - now rewrite Hc.
  - rewrite Hd. now apply IH.
Qed.

(** X19: the first content block of type HTML decides, wherever it stands
    in the list.  Its value is the body when it is not empty; when it is
    empty or absent the body is the summary, or else the description,
    whatever blocks follow.  The same fallback is taken when no block is of
    type HTML. *)
Theorem main_html_falls_back e :
  let cs := match e_content e with Some cs => cs | None => [] end in
  let fallback :=
    str_or (get_dflt (e_summary e)) (str_or (get_dflt (e_description e)) []) in
  (Forall (fun c => starts_with (L "text/html") (get_dflt (c_type c)) = false) cs
   -> main_html e = fallback)
  /\ (forall pre c rest,
        cs = pre ++ c :: rest ->
        Forall (fun c => starts_with (L "text/html") (get_dflt (c_type c)) = false)
               pre ->
        starts_with (L "text/html") (get_dflt (c_type c)) = true ->
        main_html e = match present (c_value c) with
                      | Some v => v
                      | None => fallback
                      end).
Proof.
  cbv zeta. unfold main_html. destruct (e_content e) as [cs|].
  - split.
    + intros H. now rewrite (first_html_content_none cs H).
    + intros pre c rest -> Hpre Hhtml.
      rewrite (first_html_content_first pre c rest Hpre Hhtml).
      destruct (c_value c) as [[|x v]|]; reflexivity.
  - split; [reflexivity|].
    intros pre c rest H. destruct pre; discriminate.
Qed.

Lemma main_html_falls_back_witness :
  main_html
    (entry_with_content (L "summary")
       [mk_content (Some (L "text/plain")) (Some (L "plain"));
        mk_content (Some (L "text/html")) (Some []);
        mk_content (Some (L "text/html")) (Some (L "<p>later</p>"))])
  = L "summary".
Proof.
  apply (proj2 (main_html_falls_back
                  (entry_with_content (L "summary")
                     [mk_content (Some (L "text/plain")) (Some (L "plain"));
                      mk_content (Some (L "text/html")) (Some []);
                      mk_content (Some (L "text/html")) (Some (L "<p>later</p>"))]))
           [mk_content (Some (L "text/plain")) (Some (L "plain"))]
           (mk_content (Some (L "text/html")) (Some []))
           [mk_content (Some (L "text/html")) (Some (L "<p>later</p>"))]);
    [reflexivity|repeat constructor|reflexivity].
Defined.

(** ** Images with a data source *)

Lemma is_data_img_drop n : is_data_img (drop_data_imgs n) = is_data_img n.
Proof. destruct n; reflexivity. Qed.

Lemma drop_data_imgs_clean n :
  is_data_img n = false -> has_data_img (drop_data_imgs n) = false.
Proof.
  induction n as [s|name attrs ch IH] using node_induction; intros Hn;
    [reflexivity|].
  cbn [drop_data_imgs has_data_img].
  change (is_data_img (Tag name attrs
            (filter (fun x => negb (is_data_img x)) (map drop_data_imgs ch))))
    with (is_data_img (Tag name attrs ch)).
  rewrite Hn. simpl. clear Hn.
  induction IH as [|x ch Hx _ IHch]; [reflexivity|].
  simpl. rewrite is_data_img_drop.
  destruct (is_data_img x) eqn:Ex; simpl; [exact IHch|].
  now rewrite (Hx eq_refl), IHch.
Qed.

Lemma drop_data_imgs_fixed_node n :
  has_data_img n = false -> drop_data_imgs n = n.
Proof.
  induction n as [s|name attrs ch IH] using node_induction; intros Hn;
    [reflexivity|].
  cbn [has_data_img] in Hn. apply orb_false_iff in Hn. destruct Hn as [_ Hch].
  cbn [drop_data_imgs]. f_equal.
  induction IH as [|x ch Hx _ IHch]; [reflexivity|].
  simpl in Hch. apply orb_false_iff in Hch. destruct Hch as [Hx' Hch].
  simpl. rewrite (Hx Hx'), (IHch Hch).
  destruct x as [s|nm at' c']; [reflexivity|].
  cbn [has_data_img] in Hx'. apply orb_false_iff in Hx'.
  now rewrite (proj1 Hx').
Qed.

Lemma drop_data_imgs_fixed_soup (d : soup) :
  existsb has_data_img d = false -> drop_data_imgs_soup d = d.
Proof.
  unfold drop_data_imgs_soup. induction d as [|x d IH]; [reflexivity|].
  simpl. intros H. apply orb_false_iff in H. destruct H as [Hx Hd].
  rewrite (drop_data_imgs_fixed_node x Hx), (IH Hd).
  destruct x as [s|nm at' c']; [reflexivity|].
  cbn [has_data_img] in Hx. apply orb_false_iff in Hx.
  now rewrite (proj1 Hx).
Qed.

Lemma drop_data_imgs_soup_clean (d : soup) :
  existsb has_data_img (drop_data_imgs_soup d) = false.
Proof.
  unfold drop_data_imgs_soup. induction d as [|x d IH]; [reflexivity|].
  simpl. rewrite is_data_img_drop.
  destruct (is_data_img x) eqn:Ex; simpl; [exact IH|].
  now rewrite (drop_data_imgs_clean x Ex), IH.
Qed.

(** X20: no image with a [data:] source is left, at any depth, in the tree
    that the rich sanitizer serialises; taking such images out a second
    time changes nothing. *)
Theorem rich_sanitizer_drops_data_images {X : Externals} html :
  existsb has_data_img (sanitize_for_zen_soup html) = false
  /\ drop_data_imgs_soup (sanitize_for_zen_soup html) = sanitize_for_zen_soup html.
Proof.
  assert (existsb has_data_img (sanitize_for_zen_soup html) = false) as H
    by apply drop_data_imgs_soup_clean.
  split; [exact H|now apply drop_data_imgs_fixed_soup].
Qed.

(** X21: a tree without such an image goes through unchanged: nothing but
    images with a [data:] source is taken out. *)
Theorem tree_without_data_images_is_kept (d : soup) :
  existsb has_data_img d = false -> drop_data_imgs_soup d = d.
Proof. apply drop_data_imgs_fixed_soup. Qed.

Lemma tree_without_data_images_is_kept_witness :
  let d := [Tag (L "p") []
              [Text (L "x");
               Tag (L "img") [(L "src", L "https://example.org/a.png")] []]] in
  drop_data_imgs_soup d = d.
Proof. cbv zeta. apply tree_without_data_images_is_kept. reflexivity. Defined.

(** ** Lengths *)

(** A round has four characters or more, and a scan stays inside the
    text. *)
Lemma br_scan_length s :
  forall q, snd (br_scan q s) <= length s
            /\ 4 * fst (br_scan q s) <= snd (br_scan q s) + br_behind q.
Proof.
  induction s as [|c s IH]; intros q; [simpl; lia|].
  cbn [br_scan].
  destruct (br_step q c) as [| |q'|] eqn:Hstep.
  - simpl. lia.
  - assert (q = Between) as ->.
    { destruct q; unfold br_step in Hstep;
        repeat match type of Hstep with
               | (if ?b then _ else _) = _ => destruct b
               end; congruence. }
    destruct (IH Between) as [H1 H2].
    destruct (br_scan Between s) as [k l]. simpl in *. lia.
  - assert (br_behind q' <= S (br_behind q)) as Hoff.
    { destruct q; unfold br_step in Hstep;
        repeat match type of Hstep with
               | (if ?b then _ else _) = _ => destruct b
               end; try discriminate; injection Hstep as <-; simpl; lia. }
    destruct (IH q') as [H1 H2].
    destruct (br_scan q' s) as [[|k] l]; simpl in *; lia.
  - assert (br_behind q = 3) as Hoff.
    { destruct q; unfold br_step in Hstep;
        repeat match type of Hstep with
               | (if ?b then _ else _) = _ => destruct b
               end; try discriminate; reflexivity. }
    destruct (IH Between) as [H1 H2].
    destruct (br_scan Between s) as [k l]. simpl in *. lia.
Qed.

Lemma br_match_length s n : br_match s = Some n -> 12 <= n <= length s.
Proof.
  unfold br_match. destruct (br_scan_length s Between) as [H1 H2].
  destruct (br_scan Between s) as [k l]. cbn [fst snd br_behind] in *.
  destruct (3 <=? k) eqn:Hk; [|discriminate].
  apply Nat.leb_le in Hk. intros H. injection H as <-. lia.
Qed.

Lemma sub_ws_length n :
  forall s, length s <= n -> length (sub_ws s) <= length s.
Proof.
  induction n as [|n IH]; intros [|c s] Hlen; simpl in Hlen; try lia;
    try (simpl; lia).
  unfold sub_ws in *. rewrite re_sub_cons.
  destruct (ws_match (c :: s)) as [[|k]|]; simpl;
    try (specialize (IH s ltac:(lia)); lia).
  pose proof (length_skipn k s).
  specialize (IH (skipn k s) ltac:(lia)). lia.
Qed.

Lemma sub_br_length n :
  forall s, length s <= n -> length (sub_br s) <= length s.
Proof.
  induction n as [|n IH]; intros [|c s] Hlen; simpl in Hlen; try lia;
    try (simpl; lia).
  unfold sub_br in *. rewrite re_sub_cons.
  destruct (br_match (c :: s)) as [[|k]|] eqn:Hm;
    try (simpl; specialize (IH s ltac:(lia)); lia).
  apply br_match_length in Hm. cbn [length] in Hm |- *.
  pose proof (length_skipn k s).
  specialize (IH (skipn k s) ltac:(lia)).
  rewrite length_app. change (length BR2) with 8. lia.
Qed.

(** X22: the restricted sanitizer never returns more characters than
    bleach gave it: each substitution writes less than it takes. *)
Theorem sanitize_for_tg_never_longer {X : Externals} html :
  length (sanitize_for_tg html)
  <= length (bleach_clean TG_ALLOWED_TAGS TG_ALLOWED_ATTRS html).
Proof.
  unfold sanitize_for_tg.
  set (cleaned := bleach_clean TG_ALLOWED_TAGS TG_ALLOWED_ATTRS html).
  pose proof (sub_ws_length (length cleaned) cleaned (le_n _)).
  pose proof (sub_br_length (length (sub_ws cleaned)) (sub_ws cleaned) (le_n _)).
  lia.
Qed.

(** X23: what the two substitutions of the restricted sanitizer return,
    they leave as it is when they run over it again. *)
Theorem substitutions_run_twice s :
  sub_br (sub_ws (sub_br (sub_ws s))) = sub_br (sub_ws s)
  /\ sub_ws (sub_br (sub_ws s)) = sub_br (sub_ws s)
  /\ sub_br (sub_br (sub_ws s)) = sub_br (sub_ws s).
Proof.
  assert (single_spaced false (sub_br (sub_ws s)) = true) as Hws.
  { apply (single_spaced_sub_br (length (sub_ws s))); [lia|].
    apply (single_spaced_sub_ws (length s)); [lia|discriminate]. }
  assert (sub_br (sub_br (sub_ws s)) = sub_br (sub_ws s)) as Hbr.
  { apply sub_br_fixed. intros i. apply br_match_none_iff.
    apply (br_count_sub_br_anywhere (length (sub_ws s))). lia. }
  assert (sub_ws (sub_br (sub_ws s)) = sub_br (sub_ws s)) as Hw
    by exact (sub_ws_fixed _ false Hws).
  split; [now rewrite Hw|split; assumption].
Qed.

(** X24: with a maximum of at least one character, truncating what was
    truncated changes nothing. *)
Theorem chunk_plain_text_idempotent s m :
  (1 <= m)%Z ->
  chunk_plain_text (chunk_plain_text s m) m = chunk_plain_text s m.
Proof.
  intros Hm. pose proof (chunk_plain_text_length s m Hm) as Hlen.
  unfold chunk_plain_text at 1.
  apply Z.leb_le in Hlen. now rewrite Hlen.
Qed.

Lemma chunk_plain_text_idempotent_witness :
  chunk_plain_text (chunk_plain_text (L "hello world foo") 10) 10
  = chunk_plain_text (L "hello world foo") 10.
Proof. apply chunk_plain_text_idempotent. lia. Defined.

(** ** The self link of the rich feed *)

Lemma rstrip_slash_spec s :
  (exists n, s = rstrip_slash s ++ repeat 47%N n)
  /\ (forall b, rstrip_slash s <> b ++ [47%N]).
Proof.
  unfold rstrip_slash. split.
  - destruct (drop_while_suffix (fun c => (c =? 47)%N) (rev s))
      as (a & Hs & Ha).
    exists (length a).
    assert (a = repeat 47%N (length a)) as Hrep.
    { clear Hs. induction Ha as [|c a Hc _ IH]; [reflexivity|].
      apply N.eqb_eq in Hc. subst c. simpl. now f_equal. }
    apply (f_equal (@rev N)) in Hs. rewrite rev_involutive, rev_app_distr in Hs.
    rewrite Hs at 1. f_equal. rewrite Hrep at 1.
    clear. induction (length a) as [|n IH]; [reflexivity|].
    simpl. rewrite IH. clear. induction n as [|n IH]; [reflexivity|].
    simpl. now rewrite <- IH.
  - intros b H. apply (f_equal (@rev N)) in H.
    rewrite rev_involutive, rev_app_distr in H. simpl in H.
    apply drop_while_head in H. discriminate.
Qed.

(** X25: the self link of the rich feed is the feed link without the
    slashes at its end, followed by [/zen.xml]: the two are never joined
    by two slashes. *)
Theorem zen_self_link_has_one_slash {X : Externals} cfg clock fp :
  exists base n,
    FEED_LINK cfg = base ++ repeat 47%N n
    /\ (forall b, base <> b ++ [47%N])
    /\ In (Elem (qname NS_ATOM (L "link"))
             [(L "href", base ++ L "/zen.xml"); (L "rel", L "self");
              (L "type", L "application/rss+xml")] None [])
          (flat_map xml_children (xml_children (zen_tree cfg clock fp))).
Proof.
  destruct (rstrip_slash_spec (FEED_LINK cfg)) as [[n Hn] Hb].
  exists (rstrip_slash (FEED_LINK cfg)), n. repeat split; auto.
  unfold zen_tree. cbn [xml_children flat_map].
  rewrite app_nil_r. apply in_or_app. left.
  do 3 right. left. reflexivity.
Qed.

(** ** Surrogates in the identity *)

Lemma utf8_encode_app a b : utf8_encode (a ++ b) = utf8_encode a ++ utf8_encode b.
Proof. apply flat_map_app. Qed.

(** X26: a surrogate in the identity of an entry does not count for the
    GUID, since the encoding leaves it out: two entries whose identities
    differ by one surrogate get the same GUID. *)
Theorem guid_ignores_surrogates e e' a c b :
  (55296 <= c <= 57343)%N ->
  resolved_identity e = a ++ c :: b ->
  resolved_identity e' = a ++ b ->
  guid_for e = guid_for e'.
Proof.
  intros Hc He He'. unfold guid_for, sha256_hexdigest.
  rewrite !guid_source_resolved, He, He'.
  change (a ++ c :: b) with (a ++ [c] ++ b).
  rewrite !utf8_encode_app.
  assert (utf8_encode [c] = []) as ->; [|reflexivity].
  unfold utf8_encode, utf8_char. simpl.
  destruct (N.ltb_spec c 128); [lia|].
  destruct (N.ltb_spec c 2048); [lia|].
  destruct (N.leb_spec 55296 c); [|lia].
  destruct (N.leb_spec c 57343); [|lia].
  reflexivity.
Qed.

Lemma guid_ignores_surrogates_witness :
  guid_for (entry_with_id (L "ab" ++ [55357%N] ++ L "c"))
  = guid_for (entry_with_id (L "abc")).
Proof.
  apply (guid_ignores_surrogates _ _ (L "ab") 55357%N (L "c"));
    [lia|reflexivity|reflexivity].
Defined.
